(** * S3 Resource Admin: the service layer, its validators and its routes

    A shallow embedding of [server/src/services/s3Service.js],
    [server/src/middleware/validation.js] and the bucket and file routes,
    with the storage provider left abstract: every command the code sends
    is answered by a provider function and recorded in a trace. *)

From Stdlib Require Import List String Ascii NArith Arith Bool Lia.
From Stdlib Require Import DecimalString.
Import ListNotations.

Set Implicit Arguments.
Local Open Scope N_scope.
Local Open Scope list_scope.
Local Abbreviation length := List.length.

(** ** JavaScript strings

    A JavaScript string is a sequence of UTF-16 code units; [length],
    [includes], [startsWith], [endsWith] and regular expressions without
    the [u] flag all work on code units. *)

Definition jsstring := list N.

(** A string literal of the source. *)
Definition lit (s : string) : jsstring :=
  map N_of_ascii (list_ascii_of_string s).

(** [String(n)] for a non-negative integer, as a template literal renders it. *)
Definition toString (n : nat) : jsstring :=
  lit (NilEmpty.string_of_uint (Nat.to_uint n)).

(** [a === b] on strings. *)
Fixpoint jsstring_eqb (a b : jsstring) : bool :=
  match a, b with
  | [], [] => true
  | x :: a', y :: b' => (x =? y) && jsstring_eqb a' b'
  | _, _ => false
  end.

Fixpoint startsWith (s p : jsstring) : bool :=
  match p, s with
  | [], _ => true
  | _ :: _, [] => false
  | a :: p', b :: s' => (a =? b) && startsWith s' p'
  end.

Definition endsWith (s p : jsstring) : bool :=
  startsWith (rev s) (rev p).

Fixpoint includes (s sub : jsstring) : bool :=
  startsWith s sub ||
  match s with
  | [] => false
  | _ :: s' => includes s' sub
  end.

(** [arr.join(sep)] on an array of strings. *)
Fixpoint join (l : list jsstring) (sep : jsstring) : jsstring :=
  match l with
  | [] => []
  | [x] => x
  | x :: l' => x ++ sep ++ join l' sep
  end.

(** The empty string literal. *)
Definition empty : jsstring := [].

(** Truthiness of a string value that may be [undefined]. *)
Definition truthy (v : option jsstring) : bool :=
  match v with
  | None | Some [] => false
  | Some (_ :: _) => true
  end.

(** ** Errors and completions *)

Record AccessPoint := { Name : jsstring; Bucket : jsstring }.

(** An [Error] object with the own properties the code reads or sets. *)
Record JsError := {
  name : jsstring;
  message : jsstring;
  code : option jsstring;
  accessPoints : option (list AccessPoint)
}.

(** [new Error(msg)] *)
Definition Error (msg : jsstring) : JsError :=
  {| name := lit "Error"; message := msg; code := None; accessPoints := None |}.

Inductive completion (A : Type) : Type :=
| Normal (a : A)
| Throw (e : JsError).
Arguments Normal {A} a.
Arguments Throw {A} e.

(** ** The bucket-name validator of the service (validateBucketName) *)

Definition is_lower (c : N) : bool := (97 <=? c) && (c <=? 122).
Definition is_digit (c : N) : bool := (48 <=? c) && (c <=? 57).
Definition dot : N := 46.
Definition hyphen : N := 45.

(** The character class [[a-z0-9.-]]. *)
Definition bucket_char (c : N) : bool :=
  is_lower c || is_digit c || (c =? dot) || (c =? hyphen).

(** [/^[a-z0-9.-]+$/.test(s)] *)
Definition bucket_regex_test (s : jsstring) : bool :=
  match s with
  | [] => false
  | _ :: _ => forallb bucket_char s
  end.

Definition msg_required : jsstring := lit "Bucket name is required".
Definition msg_length : jsstring :=
  lit "Bucket name must be between 3 and 63 characters".
Definition msg_charset : jsstring :=
  lit "Bucket name can only contain lowercase letters, numbers, dots, and hyphens".
Definition msg_edge_dot : jsstring :=
  lit "Bucket name cannot start or end with a dot".
Definition msg_double_dot : jsstring :=
  lit "Bucket name cannot contain consecutive dots".
Definition msg_dot_hyphen : jsstring :=
  lit "Bucket name cannot contain dots adjacent to hyphens".

(** The method returns nothing when the name passes and throws otherwise. *)
Definition validateBucketName (bucketName : jsstring) : completion unit :=
  if negb (truthy (Some bucketName)) then
    Throw (Error msg_required)
  else if (length bucketName <? 3)%nat || (63 <? length bucketName)%nat then
    Throw (Error msg_length)
  else if negb (bucket_regex_test bucketName) then
    Throw (Error msg_charset)
  else if startsWith bucketName (lit ".") || endsWith bucketName (lit ".") then
    Throw (Error msg_edge_dot)
  else if includes bucketName (lit "..") then
    Throw (Error msg_double_dot)
  else if includes bucketName (lit ".-") || includes bucketName (lit "-.") then
    Throw (Error msg_dot_hyphen)
  else
    Normal tt.

(** Membership in the class, and occurrence of a substring, as the
    specification words them. *)
Definition in_class (c : N) : Prop :=
  97 <= c <= 122 \/ 48 <= c <= 57 \/ c = 46 \/ c = 45.

Definition contains (s sub : jsstring) : Prop :=
  exists pre post, s = pre ++ sub ++ post.

(** The rules of the validator, in the order the code checks them. *)
Inductive Rule :=
| Required | Length | Charset | EdgeDot | ConsecutiveDots | DotHyphen.

(** The test the code makes for each rule. *)
Definition violates (r : Rule) (s : jsstring) : bool :=
  match r with
  | Required => negb (truthy (Some s))
  | Length => (length s <? 3)%nat || (63 <? length s)%nat
  | Charset => negb (bucket_regex_test s)
  | EdgeDot => startsWith s (lit ".") || endsWith s (lit ".")
  | ConsecutiveDots => includes s (lit "..")
  | DotHyphen => includes s (lit ".-") || includes s (lit "-.")
  end.

Definition reason (r : Rule) : jsstring :=
  match r with
  | Required => msg_required
  | Length => msg_length
  | Charset => msg_charset
  | EdgeDot => msg_edge_dot
  | ConsecutiveDots => msg_double_dot
  | DotHyphen => msg_dot_hyphen
  end.

(** What it means for a name to break a rule. *)
Definition violated (r : Rule) (s : jsstring) : Prop :=
  match r with
  | Required => s = []
  | Length => (length s < 3 \/ 63 < length s)%nat
  | Charset => ~ (s <> [] /\ forall c, In c s -> in_class c)
  | EdgeDot => (exists t, s = lit "." ++ t) \/ (exists t, s = t ++ lit ".")
  | ConsecutiveDots => contains s (lit "..")
  | DotHyphen => contains s (lit ".-") \/ contains s (lit "-.")
  end.

(** The rules checked before [r]. *)
Definition earlier (r : Rule) : list Rule :=
  match r with
  | Required => []
  | Length => [Required]
  | Charset => [Required; Length]
  | EdgeDot => [Required; Length; Charset]
  | ConsecutiveDots => [Required; Length; Charset; EdgeDot]
  | DotHyphen => [Required; Length; Charset; EdgeDot; ConsecutiveDots]
  end.

(** The acceptance condition in the words of the specification: length
    in [3,63], only characters of the class, no dot first or last, no two
    dots in a row, no dot next to a hyphen. *)
Definition well_named (s : jsstring) : Prop :=
  (3 <= length s <= 63)%nat /\
  (s <> [] /\ forall c, In c s -> in_class c) /\
  ~ (exists t, s = lit "." ++ t) /\
  ~ (exists t, s = t ++ lit ".") /\
  ~ contains s (lit "..") /\
  ~ contains s (lit ".-") /\
  ~ contains s (lit "-.").

(** ** Request schemas (middleware/validation.js)

    A [Joi.string()] schema with [min], [max] and [pattern] rules.
    [schema.validate(value)] stops at the first failing rule; the empty
    string fails before any rule is tried. *)

Record StringSchema := {
  min : nat;
  max : nat;
  pattern : jsstring -> bool
}.

Inductive JoiError :=
| string_empty | string_min | string_max | string_pattern_base.

Definition validate (schema : StringSchema) (value : jsstring)
  : option JoiError :=
  match value with
  | [] => Some string_empty
  | _ :: _ =>
      if (length value <? min schema)%nat then Some string_min
      else if (max schema <? length value)%nat then Some string_max
      else if negb (pattern schema value) then Some string_pattern_base
      else None
  end.

Definition bucketNameSchema : StringSchema :=
  {| min := 3; max := 63; pattern := bucket_regex_test |}.

(** The seven characters the key pattern excludes: less-than,
    greater-than, colon, double quote, vertical bar, question mark and
    asterisk. *)
Definition forbidden_key_char (c : N) : bool :=
  (c =? 60) || (c =? 62) || (c =? 58) || (c =? 34) ||
  (c =? 124) || (c =? 63) || (c =? 42).

(** The test of the key pattern: one or more characters, none forbidden. *)
Definition key_regex_test (s : jsstring) : bool :=
  match s with
  | [] => false
  | _ :: _ => forallb (fun c => negb (forbidden_key_char c)) s
  end.

Definition fileKeySchema : StringSchema :=
  {| min := 1; max := 1024; pattern := key_regex_test |}.

(** ** decodeURIComponent

    The Decode operation of ECMAScript with an empty set of preserved
    escapes: a percent sign starts an escaped octet, an octet with leading
    one bits starts a UTF-8 sequence of escaped octets, and anything
    malformed throws a URIError. *)

Definition URIError : JsError :=
  {| name := lit "URIError"; message := lit "URI malformed";
     code := None; accessPoints := None |}.

Definition hex_value (c : N) : option N :=
  if is_digit c then Some (c - 48)
  else if (65 <=? c) && (c <=? 70) then Some (c - 55)
  else if (97 <=? c) && (c <=? 102) then Some (c - 87)
  else None.

(** An escape [%XY] at the head of [s]: its octet and the rest. *)
Definition percent_octet (s : jsstring) : option (N * jsstring) :=
  match s with
  | 37 :: h :: l :: rest =>
      match hex_value h, hex_value l with
      | Some a, Some b => Some (16 * a + b, rest)
      | _, _ => None
      end
  | _ => None
  end.

(** [n] further escaped octets of the form 10xxxxxx, folded into [acc]. *)
Fixpoint continuation_octets (n : nat) (acc : N) (s : jsstring)
  : option (N * jsstring) :=
  match n with
  | O => Some (acc, s)
  | S n' =>
      match percent_octet s with
      | Some (b, rest) =>
          if (128 <=? b) && (b <=? 191)
          then continuation_octets n' (64 * acc + (b - 128)) rest
          else None
      | None => None
      end
  end.

Definition UTF16EncodeCodePoint (v : N) : jsstring :=
  if v <? 65536 then [v]
  else [55296 + (v - 65536) / 1024; 56320 + (v - 65536) mod 1024].

(** The code point of a sequence led by octet [b], when it is valid UTF-8:
    not overlong, not a surrogate, at most U+10FFFF. *)
Definition utf8_sequence (b : N) (s : jsstring) : option (N * jsstring) :=
  if (192 <=? b) && (b <=? 223) then
    match continuation_octets 1 (b - 192) s with
    | Some (v, rest) => if 128 <=? v then Some (v, rest) else None
    | None => None
    end
  else if (224 <=? b) && (b <=? 239) then
    match continuation_octets 2 (b - 224) s with
    | Some (v, rest) =>
        if (2048 <=? v) && negb ((55296 <=? v) && (v <=? 57343))
        then Some (v, rest) else None
    | None => None
    end
  else if (240 <=? b) && (b <=? 247) then
    match continuation_octets 3 (b - 240) s with
    | Some (v, rest) =>
        if (65536 <=? v) && (v <=? 1114111) then Some (v, rest) else None
    | None => None
    end
  else None.

Fixpoint Decode (fuel : nat) (s : jsstring) : completion jsstring :=
  match fuel, s with
  | _, [] => Normal []
  | O, _ :: _ => Normal s
  | S fuel', c :: rest =>
      let continue (unit : jsstring) (rest' : jsstring) :=
        match Decode fuel' rest' with
        | Normal r => Normal (unit ++ r)
        | Throw e => Throw e
        end in
      if c =? 37 then
        match percent_octet s with
        | None => Throw URIError
        | Some (b, rest1) =>
            if b <? 128 then continue [b] rest1
            else
              match utf8_sequence b rest1 with
              | Some (v, rest2) => continue (UTF16EncodeCodePoint v) rest2
              | None => Throw URIError
              end
        end
      else continue [c] rest
  end.

(** Every step consumes at least one code unit, so the length of the
    input is fuel enough. *)
Definition decodeURIComponent (s : jsstring) : completion jsstring :=
  Decode (length s) s.

(** ** The storage provider

    The commands of the two SDK clients that the modelled code sends, with
    the input fields the code sets ([None] for a field it leaves out), and
    the output fields it reads. *)

(** An object as a listing returns it. A size is the whole number of
    bytes that the provider reports. *)
Record S3Object := { Key : jsstring; Size : N }.

Inductive S3Command :=
| CreateBucketCommand (bucket : jsstring) (LocationConstraint : option jsstring)
| DeleteBucketCommand (bucket : jsstring)
| ListObjectsV2Command (bucket : jsstring) (Prefix : option jsstring)
    (MaxKeys : option nat) (ContinuationToken : option jsstring)
| DeleteObjectCommand (bucket : jsstring) (key : jsstring).

Inductive S3ControlCommand :=
| ListAccessPointsCommand (AccountId : jsstring) (bucket : jsstring)
| DeleteAccessPointCommand (AccountId : jsstring) (apName : jsstring).

Record ListObjectsV2Output := {
  Contents : option (list S3Object);
  IsTruncated : option bool;
  NextContinuationToken : option jsstring;
  KeyCount : option nat
}.

Record ListAccessPointsOutput := {
  AccessPointList : option (list AccessPoint)
}.

Definition S3Output (c : S3Command) : Type :=
  match c with
  | ListObjectsV2Command _ _ _ _ => ListObjectsV2Output
  | _ => unit
  end.

Definition S3ControlOutput (c : S3ControlCommand) : Type :=
  match c with
  | ListAccessPointsCommand _ _ => ListAccessPointsOutput
  | DeleteAccessPointCommand _ _ => unit
  end.

(** What the code runs against: the state behind the two clients, how each
    client answers a command in a state, and the process environment. *)
Class Environment := {
  World : Type;
  s3Client : forall c : S3Command, World -> completion (S3Output c) * World;
  s3ControlClient :
    forall c : S3ControlCommand, World -> completion (S3ControlOutput c) * World;
  AWS_ACCOUNT_ID : option jsstring
}.

Inductive Command :=
| S3 (c : S3Command)
| S3Control (c : S3ControlCommand).

(** One command sent, and the error the provider answered with, if any. *)
Record Sent := { command : Command; failure : option JsError }.

Definition failure_of {A} (r : completion A) : option JsError :=
  match r with
  | Normal _ => None
  | Throw e => Some e
  end.

(** ** Asynchronous code as state passing

    An [async] function is a function of the provider state that yields a
    completion, the state it leaves and the commands it sent, in order. *)

Module Outcome.
Record t {E : Environment} (A : Type) := {
  result : completion A;
  final : World;
  trace : list Sent
}.
End Outcome.
Import Outcome.

Section Async.
Context {E : Environment}.

Definition M (A : Type) : Type := World -> Outcome.t A.

Definition ret {A} (a : A) : M A :=
  fun w => {| result := Normal a; final := w; trace := [] |}.

Definition throw {A} (e : JsError) : M A :=
  fun w => {| result := Throw e; final := w; trace := [] |}.

(** The outcome [o] of a continuation, after the commands [t] that were
    sent before it. *)
Definition after_trace {A} (t : list Sent) (o : Outcome.t A) : Outcome.t A :=
  {| result := result o; final := final o; trace := t ++ trace o |}.

Definition bind {A B} (m : M A) (k : A -> M B) : M B :=
  fun w =>
    let o := m w in
    match result o with
    | Normal a => after_trace (trace o) (k a (final o))
    | Throw e => {| result := Throw e; final := final o; trace := trace o |}
    end.

(** [try { body } catch (error) { handler }] *)
Definition try_catch {A} (body : M A) (handler : JsError -> M A) : M A :=
  fun w =>
    let o := body w in
    match result o with
    | Normal _ => o
    | Throw e => after_trace (trace o) (handler e (final o))
    end.

(** A synchronous call that may throw. *)
Definition call {A} (c : completion A) : M A :=
  fun w => {| result := c; final := w; trace := [] |}.

(** [await this.s3Client.send(command)] *)
Definition s3Client_send (c : S3Command) : M (S3Output c) :=
  fun w =>
    let '(r, w') := s3Client c w in
    {| result := r; final := w';
       trace := [ {| command := S3 c; failure := failure_of r |} ] |}.

(** [await this.s3ControlClient.send(command)] *)
Definition s3ControlClient_send (c : S3ControlCommand) : M (S3ControlOutput c) :=
  fun w =>
    let '(r, w') := s3ControlClient c w in
    {| result := r; final := w';
       trace := [ {| command := S3Control c; failure := failure_of r |} ] |}.

End Async.

Declare Scope async_scope.
Delimit Scope async_scope with async.
Notation "x <- m ;; k" := (bind m (fun x => k))
  (at level 100, m at next level, right associativity) : async_scope.
Notation "m ;; k" := (bind m (fun _ => k))
  (at level 100, right associativity) : async_scope.
Local Open Scope async_scope.

(** ** The service (services/s3Service.js) *)

(** The [{ success, message }] object the delete operations return. *)
Module Result.
Record t := { success : bool; message : jsstring }.
End Result.

(** One entry of the [files] array of [listFiles] (key and size; the
    fields that are only passed through are left out). *)
Record File := { key : jsstring; size : N }.

Record FileList := {
  files : list File;
  isTruncated : option bool;
  nextContinuationToken : option jsstring;
  totalCount : option nat
}.

Record BucketInfo := { bucket_name : jsstring; region : jsstring }.

(** [x || []] for an array that may be [undefined]. *)
Definition or_empty {A} (x : option (list A)) : list A :=
  match x with
  | Some l => l
  | None => []
  end.

(** [x && x.length > 0] *)
Definition has_elements {A} (x : option (list A)) : bool :=
  match x with
  | Some l => (0 <? length l)%nat
  | None => false
  end.

Definition optstring_eqb (a : option jsstring) (b : jsstring) : bool :=
  match a with
  | Some a' => jsstring_eqb a' b
  | None => false
  end.

Definition msg_contains_objects : jsstring :=
  lit "Cannot delete bucket that contains objects".
Definition msg_no_account : jsstring :=
  lit "Bucket has access points attached and cannot be deleted. Please set AWS_ACCOUNT_ID environment variable to enable access point management.".
Definition BUCKET_HAS_ACCESS_POINTS : jsstring := lit "BUCKET_HAS_ACCESS_POINTS".

Section Service.
Context {E : Environment}.

(** [for (const x of l) { await body(x) }] *)
Fixpoint for_of {A} (l : list A) (body : A -> M unit) : M unit :=
  match l with
  | [] => ret tt
  | x :: l' => body x ;; for_of l' body
  end.

Definition createBucket (bucketName region : jsstring) : M BucketInfo :=
  try_catch
    (call (validateBucketName bucketName) ;;
     s3Client_send
       (CreateBucketCommand bucketName
          (if negb (jsstring_eqb region (lit "us-east-1"))
           then Some region else None)) ;;
     ret {| bucket_name := bucketName; region := region |})
    (fun error =>
       if jsstring_eqb (name error) (lit "BucketAlreadyExists") then
         throw (Error (lit "Bucket name already exists"))
       else if jsstring_eqb (name error) (lit "BucketAlreadyOwnedByYou") then
         throw (Error (lit "Bucket already owned by you"))
       else
         throw (Error (lit "Failed to create bucket: " ++ message error))).

(** A failure of the listing is swallowed (after a console warning) and
    becomes the empty array. *)
Definition listAccessPoints (bucketName accountId : jsstring)
  : M (list AccessPoint) :=
  try_catch
    (response <- s3ControlClient_send
                   (ListAccessPointsCommand accountId bucketName) ;;
     ret (or_empty (AccessPointList response)))
    (fun error => ret []).

Definition deleteAccessPoint (accessPointName accountId : jsstring)
  : M Result.t :=
  try_catch
    (s3ControlClient_send (DeleteAccessPointCommand accountId accessPointName) ;;
     ret {| Result.success := true;
            Result.message :=
              lit "Access point " ++ accessPointName ++
              lit " deleted successfully" |})
    (fun error =>
       throw (Error (lit "Failed to delete access point " ++ accessPointName ++
                     lit ": " ++ message error))).

Definition deleteBucket (bucketName : jsstring) : M Result.t :=
  try_catch
    (objectsResponse <-
       s3Client_send (ListObjectsV2Command bucketName None None None) ;;
     if has_elements (Contents objectsResponse) then
       throw (Error msg_contains_objects)
     else
       try_catch
         (s3Client_send (DeleteBucketCommand bucketName) ;;
          ret {| Result.success := true;
                 Result.message := lit "Bucket deleted successfully" |})
         (fun error =>
            (if truthy (Some (message error)) &&
                includes (message error) (lit "access points attached")
             then
               try_catch
                 (match AWS_ACCOUNT_ID with
                  | None | Some [] => throw (Error msg_no_account)
                  | Some accountId =>
                      accessPoints <- listAccessPoints bucketName accountId ;;
                      if (0 <? length accessPoints)%nat then
                        let accessPointNames :=
                          join (map Name accessPoints) (lit ", ") in
                        throw
                          {| name := lit "Error";
                             message :=
                               lit "Bucket has " ++
                               toString (length accessPoints) ++
                               lit " access point(s) attached: " ++
                               accessPointNames ++
                               lit ". These must be deleted before the bucket can be removed.";
                             code := Some BUCKET_HAS_ACCESS_POINTS;
                             accessPoints := Some accessPoints |}
                      else ret tt
                  end)
                 (fun accessPointError =>
                    if optstring_eqb (code accessPointError)
                         BUCKET_HAS_ACCESS_POINTS
                    then throw accessPointError
                    else throw (Error (lit "Failed to check access points: " ++
                                       message accessPointError)))
             else ret tt) ;;
            throw error))
    (fun error =>
       throw (Error (lit "Failed to delete bucket: " ++ message error))).

Definition deleteBucketWithAccessPoints (bucketName accountId : jsstring)
  : M Result.t :=
  try_catch
    (accessPoints <- listAccessPoints bucketName accountId ;;
     (if (0 <? length accessPoints)%nat then
        for_of accessPoints
          (fun accessPoint =>
             deleteAccessPoint (Name accessPoint) accountId ;; ret tt)
      else ret tt) ;;
     s3Client_send (DeleteBucketCommand bucketName) ;;
     ret {| Result.success := true;
            Result.message :=
              if (0 <? length accessPoints)%nat
              then lit "Bucket deleted successfully after removing " ++
                   toString (length accessPoints) ++ lit " access point(s)"
              else lit "Bucket deleted successfully" |})
    (fun error =>
       throw (Error (lit "Failed to delete bucket with access points: " ++
                     message error))).

(** The command carries the bucket, the prefix and the page size; the
    method has no parameter for a continuation token. *)
Definition listFiles (bucketName prefix : jsstring) (maxKeys : nat)
  : M FileList :=
  try_catch
    (response <-
       s3Client_send
         (ListObjectsV2Command bucketName (Some prefix) (Some maxKeys) None) ;;
     ret {| files :=
              map (fun object => {| key := Key object; size := Size object |})
                  (or_empty (Contents response));
            isTruncated := IsTruncated response;
            nextContinuationToken := NextContinuationToken response;
            totalCount := KeyCount response |})
    (fun error =>
       throw (Error (lit "Failed to list files: " ++ message error))).

Definition deleteFile (bucketName key : jsstring) : M Result.t :=
  try_catch
    (s3Client_send (DeleteObjectCommand bucketName key) ;;
     ret {| Result.success := true;
            Result.message := lit "File deleted successfully" |})
    (fun error =>
       throw (Error (lit "Failed to delete file: " ++ message error))).

End Service.

(** ** JavaScript numbers

    The numbers the code adds up are sizes: doubles that hold
    non-negative integers. A sum of such doubles is the double nearest to
    the exact sum (a tie goes to the even significand), or +Infinity once
    that double would need an exponent past the largest one. *)

Inductive number :=
| Finite (n : N)
| Infinity.

(** The double nearest to a non-negative integer: up to 53 bits are kept
    as they are; of a longer integer the 53 leading bits remain, rounded
    on the bits that are dropped. *)
Definition round_to_double (n : N) : number :=
  let bits := N.size n in
  let rounded :=
    if bits <=? 53 then n
    else
      let shift := bits - 53 in
      let q := N.shiftr n shift in
      let r := N.land n (N.ones shift) in
      let half := N.shiftl 1 (shift - 1) in
      let q' := if (half <? r) || ((r =? half) && N.odd q) then q + 1 else q in
      N.shiftl q' shift in
  if N.size rounded <=? 1024 then Finite rounded else Infinity.

(** [a + b] on such numbers. *)
Definition js_add (a b : number) : number :=
  match a, b with
  | Finite x, Finite y => round_to_double (x + y)
  | _, _ => Infinity
  end.

(** The number that holds a size. *)
Definition number_of_size (n : N) : number := round_to_double n.

(** ** The routes (routes/buckets.js and routes/files.js) *)

Record BucketStats := {
  stats_name : jsstring;
  objectCount : option nat;
  totalSize : number;
  hasObjects : bool
}.

(** What a handler sends: the status (200 unless set) and the fields of
    the body. *)
Module Reply.
Record t := {
  status : nat;
  success : bool;
  message : option jsstring;
  code : option jsstring;
  accessPoints : option (list AccessPoint);
  bucket : option BucketStats
}.
End Reply.

Definition reply (status : nat) (success : bool) (msg : jsstring) : Reply.t :=
  {| Reply.status := status; Reply.success := success;
     Reply.message := Some msg; Reply.code := None;
     Reply.accessPoints := None; Reply.bucket := None |}.

(** [error.message.includes('not found') ||
     error.message.includes('does not exist')] *)
Definition says_not_found (error : JsError) : bool :=
  includes (message error) (lit "not found") ||
  includes (message error) (lit "does not exist").

(** [n > 0] for a count that may be [undefined]. *)
Definition positive (n : option nat) : bool :=
  match n with
  | Some k => (0 <? k)%nat
  | None => false
  end.

Section Routes.
Context {E : Environment}.

(** The do-while loop of calculateBucketSize, with a bound on the number
    of iterations: [None] when the bound is reached with the loop still
    running. Every iteration makes the same call. *)
Fixpoint calculateBucketSize_loop (fuel : nat) (bucketName : jsstring)
  (totalSize : number) : M (option number) :=
  match fuel with
  | O => ret None
  | S fuel' =>
      result <- listFiles bucketName empty 1000 ;;
      let totalSize :=
        js_add totalSize
          (fold_left (fun sum file => js_add sum (number_of_size (size file)))
                     (files result) (Finite 0)) in
      let continuationToken := nextContinuationToken result in
      if truthy continuationToken
      then calculateBucketSize_loop fuel' bucketName totalSize
      else ret (Some totalSize)
  end.

Definition calculateBucketSize (fuel : nat) (bucketName : jsstring)
  : M (option number) :=
  try_catch
    (calculateBucketSize_loop fuel bucketName (Finite 0))
    (fun error => ret (Some (Finite 0))).

(** DELETE /buckets/:name *)
Definition route_DELETE_bucket (name : jsstring) : M Reply.t :=
  try_catch
    (match validate bucketNameSchema name with
     | Some _ => ret (reply 400 false (lit "Invalid bucket name"))
     | None =>
         result <- deleteBucket name ;;
         ret (reply 200 true (Result.message result))
     end)
    (fun error =>
       if includes (message error) (lit "contains objects") then
         ret (reply 409 false (message error))
       else if says_not_found error then
         ret (reply 404 false (lit "Bucket not found"))
       else if optstring_eqb (code error) BUCKET_HAS_ACCESS_POINTS then
         ret {| Reply.status := 409; Reply.success := false;
                Reply.message := Some (message error);
                Reply.code := Some BUCKET_HAS_ACCESS_POINTS;
                Reply.accessPoints := accessPoints error;
                Reply.bucket := None |}
       else
         ret (reply 500 false (message error))).

(** DELETE /buckets/:name/force *)
Definition route_DELETE_bucket_force (name : jsstring) : M Reply.t :=
  try_catch
    (match AWS_ACCOUNT_ID with
     | None | Some [] =>
         ret (reply 400 false
                (lit "AWS_ACCOUNT_ID environment variable is required for access point management"))
     | Some accountId =>
         match validate bucketNameSchema name with
         | Some _ => ret (reply 400 false (lit "Invalid bucket name"))
         | None =>
             result <- deleteBucketWithAccessPoints name accountId ;;
             ret (reply 200 true (Result.message result))
         end
     end)
    (fun error =>
       if includes (message error) (lit "contains objects") then
         ret (reply 409 false (message error))
       else
         ret (reply 500 false (message error))).

(** GET /buckets/:name; [None] when the size loop does not finish within
    [fuel] iterations. *)
Definition route_GET_bucket (fuel : nat) (name : jsstring)
  : M (option Reply.t) :=
  try_catch
    (match validate bucketNameSchema name with
     | Some _ => ret (Some (reply 400 false (lit "Invalid bucket name")))
     | None =>
         filesResult <- listFiles name empty 1 ;;
         totalSize <- calculateBucketSize fuel name ;;
         match totalSize with
         | None => ret None
         | Some totalSize =>
             ret (Some
                    {| Reply.status := 200; Reply.success := true;
                       Reply.message := None; Reply.code := None;
                       Reply.accessPoints := None;
                       Reply.bucket :=
                         Some {| stats_name := name;
                                 objectCount := totalCount filesResult;
                                 totalSize := totalSize;
                                 hasObjects := positive (totalCount filesResult) |}
                    |})
         end
     end)
    (fun error =>
       if says_not_found error then
         ret (Some (reply 404 false (lit "Bucket not found")))
       else
         ret (Some (reply 500 false (message error)))).

(** DELETE /buckets/:bucket/files/:key. The key is decoded first; both
    checks are made on the parameters as they arrived. *)
Definition route_DELETE_file (bucket key : jsstring) : M Reply.t :=
  try_catch
    (decodedKey <- call (decodeURIComponent key) ;;
     match validate fileKeySchema bucket, validate fileKeySchema key with
     | None, None =>
         result <- deleteFile bucket decodedKey ;;
         ret (reply 200 true (Result.message result))
     | _, _ => ret (reply 400 false (lit "Invalid bucket name or file key"))
     end)
    (fun error =>
       if says_not_found error then
         ret (reply 404 false (lit "File not found"))
       else
         ret (reply 500 false (message error))).

End Routes.

(** ** A simulated provider

    A small in-memory store to run the code against: buckets with their
    objects and the names of their access points, and a list of access
    points whose deletion the provider refuses. It answers the way the
    real service is documented to: a bucket is deleted only when it has
    no objects and no access points, and a listing returns one page of at
    most 1000 keys with a token for the next page. *)

Module Sim.

Record bucket := {
  b_name : jsstring;
  objects : list S3Object;
  attachments : list jsstring
}.

Record world := {
  buckets : list bucket;
  denied : list jsstring
}.

Definition mem (x : jsstring) (l : list jsstring) : bool :=
  existsb (jsstring_eqb x) l.

Definition find_bucket (w : world) (b : jsstring) : option bucket :=
  find (fun x => jsstring_eqb (b_name x) b) (buckets w).

Definition remove_bucket (w : world) (b : jsstring) : world :=
  {| buckets := filter (fun x => negb (jsstring_eqb (b_name x) b)) (buckets w);
     denied := denied w |}.

Definition update_buckets (w : world) (f : bucket -> bucket) : world :=
  {| buckets := map f (buckets w); denied := denied w |}.

Definition provider_error (n m : string) : JsError :=
  {| name := lit n; message := lit m; code := None; accessPoints := None |}.

Definition NoSuchBucket : JsError :=
  provider_error "NoSuchBucket" "The specified bucket does not exist".
Definition BucketNotEmpty : JsError :=
  provider_error "BucketNotEmpty" "The bucket you tried to delete is not empty".
Definition HasAccessPoints : JsError :=
  provider_error "InvalidBucketState" "Bucket has access points attached".
Definition AccessDenied : JsError :=
  provider_error "AccessDenied" "Access Denied".
Definition BucketAlreadyOwnedByYou : JsError :=
  provider_error "BucketAlreadyOwnedByYou"
    "Your previous request to create the named bucket succeeded and you already own it.".

(** The objects after the one the token names. *)
Fixpoint after (token : jsstring) (l : list S3Object) : list S3Object :=
  match l with
  | [] => []
  | o :: l' => if jsstring_eqb (Key o) token then l' else after token l'
  end.

Definition list_page (b : bucket) (prefix : option jsstring)
  (maxKeys : option nat) (token : option jsstring) : ListObjectsV2Output :=
  let matching :=
    filter (fun o => startsWith (Key o) (match prefix with Some p => p | None => [] end))
           (objects b) in
  let rest := match token with Some t => after t matching | None => matching end in
  let n := Nat.min (match maxKeys with Some k => k | None => 1000%nat end) 1000 in
  let page := firstn n rest in
  let more := (n <? length rest)%nat in
  {| Contents := match page with [] => None | _ :: _ => Some page end;
     IsTruncated := Some more;
     NextContinuationToken :=
       if more then option_map Key (last (map Some page) None) else None;
     KeyCount := Some (length page) |}.

Definition s3 (c : S3Command) : world -> completion (S3Output c) * world :=
  match c return world -> completion (S3Output c) * world with
  | CreateBucketCommand b _ => fun w =>
      match find_bucket w b with
      | Some _ => (Throw BucketAlreadyOwnedByYou, w)
      | None =>
          (Normal tt,
           {| buckets := buckets w ++
                [ {| b_name := b; objects := []; attachments := [] |} ];
              denied := denied w |})
      end
  | DeleteBucketCommand b => fun w =>
      match find_bucket w b with
      | None => (Throw NoSuchBucket, w)
      | Some x =>
          match objects x, attachments x with
          | _ :: _, _ => (Throw BucketNotEmpty, w)
          | [], _ :: _ => (Throw HasAccessPoints, w)
          | [], [] => (Normal tt, remove_bucket w b)
          end
      end
  | ListObjectsV2Command b prefix maxKeys token => fun w =>
      match find_bucket w b with
      | None => (Throw NoSuchBucket, w)
      | Some x => (Normal (list_page x prefix maxKeys token), w)
      end
  | DeleteObjectCommand b k => fun w =>
      match find_bucket w b with
      | None => (Throw NoSuchBucket, w)
      | Some _ =>
          (Normal tt,
           update_buckets w (fun x =>
             if jsstring_eqb (b_name x) b
             then {| b_name := b_name x;
                     objects := filter (fun o => negb (jsstring_eqb (Key o) k))
                                       (objects x);
                     attachments := attachments x |}
             else x))
      end
  end.

Definition s3control (c : S3ControlCommand)
  : world -> completion (S3ControlOutput c) * world :=
  match c return world -> completion (S3ControlOutput c) * world with
  | ListAccessPointsCommand _ b => fun w =>
      (Normal
         {| AccessPointList :=
              option_map
                (fun x => map (fun n => {| Name := n; Bucket := b |}) (attachments x))
                (find_bucket w b) |},
       w)
  | DeleteAccessPointCommand _ n => fun w =>
      if mem n (denied w) then (Throw AccessDenied, w)
      else
        (Normal tt,
         update_buckets w (fun x =>
           {| b_name := b_name x; objects := objects x;
              attachments := filter (fun a => negb (jsstring_eqb a n))
                                    (attachments x) |}))
  end.

Definition env (account : option jsstring) : Environment :=
  {| World := world; s3Client := s3; s3ControlClient := s3control;
     AWS_ACCOUNT_ID := account |}.

(** A bucket of [n] objects of one byte each, keys "1", "2", ... *)
Definition numbered (n : nat) : list S3Object :=
  map (fun i => {| Key := toString i; Size := 1 |}) (seq 1 n).

End Sim.

(** ** Scenarios

    The worlds of the scenarios of the specification, on the simulated
    provider, with an account identifier configured. *)

Module Scenario.

Definition account : jsstring := lit "123456789012".

Definition configured : Environment := Sim.env (Some account).

Definition one_bucket (n : string) (objs : list S3Object) (aps : list string)
  (denied : list string) : Sim.world :=
  {| Sim.buckets :=
       [ {| Sim.b_name := lit n; Sim.objects := objs;
            Sim.attachments := map lit aps |} ];
     Sim.denied := map lit denied |}.

(** "demo": two items, no access point. *)
Definition demo : Sim.world :=
  one_bucket "demo"
    [ {| Key := lit "a.txt"; Size := 3 |}; {| Key := lit "b.txt"; Size := 4 |} ]
    [] [].

(** "demo2": no item, access points ap1 and ap2. *)
Definition demo2 : Sim.world := one_bucket "demo2" [] ["ap1"; "ap2"]%string [].

(** "demo3": no item, three access points, the provider refuses to delete
    the second. *)
Definition demo3 : Sim.world :=
  one_bucket "demo3" [] ["ap1"; "ap2"; "ap3"]%string ["ap2"]%string.

(** "demo4": as "demo3" without its first access point. *)
Definition demo4 : Sim.world :=
  one_bucket "demo3" [] ["ap2"; "ap3"]%string ["ap2"]%string.

(** The access points of a bucket as the listing returns them. *)
Definition access_points (b : string) (aps : list string) : list AccessPoint :=
  map (fun n => {| Name := lit n; Bucket := lit b |}) aps.

(** "bare": no item, no access point. *)
Definition bare : Sim.world := one_bucket "bare" [] [] [].

(** "big": 1001 items of one byte, one more than a page holds. *)
Definition big : Sim.world := one_bucket "big" (Sim.numbered 1001) [] [].

(** The listing that the size helper sends for "big", and the page the
    provider answers it with: the first 1000 items and a token. *)
Definition big_listing : Command :=
  S3 (ListObjectsV2Command (lit "big") (Some empty) (Some 1000%nat) None).

Definition big_first_page : FileList :=
  {| files := map (fun i => {| key := toString i; size := 1 |}) (seq 1 1000);
     isTruncated := Some true;
     nextContinuationToken := Some (toString 1000);
     totalCount := Some 1000%nat |}.

End Scenario.

(** The [MaxKeys] and [ContinuationToken] fields of a command, when it is
    a listing of objects that sets them. *)
Definition max_keys (c : Command) : option nat :=
  match c with
  | S3 (ListObjectsV2Command _ _ m _) => m
  | _ => None
  end.

Definition continuation_token (c : Command) : option jsstring :=
  match c with
  | S3 (ListObjectsV2Command _ _ _ t) => t
  | _ => None
  end.

Definition is_listing (c : Command) : bool :=
  match c with
  | S3 (ListObjectsV2Command _ _ _ _) => true
  | _ => false
  end.

Definition is_DeleteBucket (c : Command) : bool :=
  match c with
  | S3 (DeleteBucketCommand _) => true
  | _ => false
  end.

Definition is_DeleteAccessPoint (c : Command) : bool :=
  match c with
  | S3Control (DeleteAccessPointCommand _ _) => true
  | _ => false
  end.

(** The command that deletes an access point of the account. *)
Definition delete_of (accountId : jsstring) (ap : AccessPoint) : Command :=
  S3Control (DeleteAccessPointCommand accountId (Name ap)).

(** The number of access points a run deleted: its delete commands that
    the provider answered without error. *)
Definition cleared (t : list Sent) : nat :=
  length (filter (fun s => is_DeleteAccessPoint (command s) &&
                           match failure s with None => true | Some _ => false end) t).

(** The first command of a run. *)
Definition first_command {E : Environment} {A} (o : Outcome.t A) (c : Command)
  : Prop :=
  exists answer rest, trace o = {| command := c; failure := answer |} :: rest.

(** A computation all of whose commands, from any state, satisfy [P]. *)
Definition sends_only {E : Environment} {A} (P : Command -> bool) (m : M A)
  : Prop :=
  forall w, forallb (fun s => P (command s)) (trace (m w)) = true.

(** A command answered without error, and one answered with [e]. *)
Definition ok (c : Command) : Sent := {| command := c; failure := None |}.
Definition failed (c : Command) (e : JsError) : Sent :=
  {| command := c; failure := Some e |}.

(** ** The content-type check of the service (validateFileType)

    The list of allowed types is the [allowedFileTypes] of the
    configuration, read from the environment or defaulted. *)

(** [s.slice(0, -2)] *)
Definition slice_0_minus2 (s : jsstring) : jsstring :=
  firstn (length s - 2) s.

(** [allowedFileTypes.includes(x)] on an array of strings. *)
Definition array_includes (l : list jsstring) (x : jsstring) : bool :=
  existsb (fun y => jsstring_eqb y x) l.

Definition validateFileType (allowedFileTypes : list jsstring)
  (contentType : jsstring) : completion unit :=
  if negb (array_includes allowedFileTypes (lit "*/*")) then
    let isAllowed :=
      existsb
        (fun allowedType =>
           if endsWith allowedType (lit "/*")
           then startsWith contentType (slice_0_minus2 allowedType)
           else jsstring_eqb contentType allowedType)
        allowedFileTypes in
    if negb isAllowed then
      Throw (Error (lit "File type " ++ contentType ++ lit " is not allowed"))
    else Normal tt
  else Normal tt.

(** The list used when ALLOWED_FILE_TYPES is not set. *)
Definition default_allowedFileTypes : list jsstring :=
  map lit ["image/*"; "application/pdf"; "text/*"; "video/*"; "audio/*";
           "application/zip"]%string.

(** ** Further worlds and providers for the examples *)

Module Cases.

(** A provider whose credentials may not touch access points: every
    command of the control client is refused. *)
Definition s3control_denied (c : S3ControlCommand)
  : Sim.world -> completion (S3ControlOutput c) * Sim.world :=
  fun w => (Throw Sim.AccessDenied, w).

Definition without_access_point_permissions : Environment :=
  {| World := Sim.world; s3Client := Sim.s3;
     s3ControlClient := s3control_denied;
     AWS_ACCOUNT_ID := Some Scenario.account |}.

(** A provider whose credentials may not delete buckets. *)
Definition s3_no_delete (c : S3Command)
  : Sim.world -> completion (S3Output c) * Sim.world :=
  match c return Sim.world -> completion (S3Output c) * Sim.world with
  | DeleteBucketCommand _ => fun w => (Throw Sim.AccessDenied, w)
  | c' => Sim.s3 c'
  end.

Definition without_delete_permission : Environment :=
  {| World := Sim.world; s3Client := s3_no_delete;
     s3ControlClient := Sim.s3control;
     AWS_ACCOUNT_ID := Some Scenario.account |}.

(** A provider on which a bucket is gone once its objects have been
    listed, as when someone else deletes it in between. *)
Definition s3_vanishing (c : S3Command)
  : Sim.world -> completion (S3Output c) * Sim.world :=
  fun w =>
    let '(r, w') := Sim.s3 c w in
    (r, match c with
        | ListObjectsV2Command b _ _ _ => Sim.remove_bucket w' b
        | _ => w'
        end).

Definition with_vanishing_buckets : Environment :=
  {| World := Sim.world; s3Client := s3_vanishing;
     s3ControlClient := Sim.s3control;
     AWS_ACCOUNT_ID := Some Scenario.account |}.

(** No account identifier in the environment. *)
Definition unconfigured : Environment := Sim.env None.

(** "occupied": one item and two access points. *)
Definition occupied : Sim.world :=
  Scenario.one_bucket "occupied" [ {| Key := lit "a.txt"; Size := 3 |} ]
    ["ap1"; "ap2"]%string [].

(** "occupied" once its access points are gone. *)
Definition occupied_detached : Sim.world :=
  Scenario.one_bucket "occupied" [ {| Key := lit "a.txt"; Size := 3 |} ] [] [].

(** "small": seven items of one byte. *)
Definition small : Sim.world :=
  Scenario.one_bucket "small" (Sim.numbered 7) [] [].

(** No bucket at all. *)
Definition nothing : Sim.world := {| Sim.buckets := []; Sim.denied := [] |}.

End Cases.

(** The commands of plain delete: the listing of objects, the delete of
    the bucket and the listing of access points. *)
Definition is_plain_delete_command (c : Command) : bool :=
  match c with
  | S3 (ListObjectsV2Command _ _ _ _) => true
  | S3 (DeleteBucketCommand _) => true
  | S3Control (ListAccessPointsCommand _ _) => true
  | _ => false
  end.

(** The commands of forced delete: the listing of access points, their
    deletes and the delete of the bucket. *)
Definition is_forced_delete_command (c : Command) : bool :=
  match c with
  | S3Control _ => true
  | S3 (DeleteBucketCommand _) => true
  | _ => false
  end.

(** When an entry of the list of allowed types lets a content type
    through: an entry ending in slash-star lets through whatever starts
    with what stands before the slash; any other entry lets through
    itself only. *)
Definition type_matches (allowedType contentType : jsstring) : Prop :=
  (exists stem, allowedType = stem ++ lit "/*" /\
                exists rest, contentType = stem ++ rest) \/
  (~ (exists stem, allowedType = stem ++ lit "/*") /\
   contentType = allowedType).

(** ** The create-bucket route (routes/buckets.js)

    POST /buckets: the handler, run on the name and the region of a body
    that the request schema let through. Its replies carry the created
    bucket instead of statistics. *)

Module CreateReply.
Record t := {
  status : nat;
  success : bool;
  message : jsstring;
  bucket : option BucketInfo
}.
End CreateReply.

Section CreateRoute.
Context {E : Environment}.

Definition route_POST_bucket (name region : jsstring) : M CreateReply.t :=
  try_catch
    (bucket <- createBucket name region ;;
     ret {| CreateReply.status := 201; CreateReply.success := true;
            CreateReply.message := lit "Bucket created successfully";
            CreateReply.bucket := Some bucket |})
    (fun error =>
       if includes (message error) (lit "already exists") ||
          includes (message error) (lit "already owned")
       then ret {| CreateReply.status := 409; CreateReply.success := false;
                   CreateReply.message := message error;
                   CreateReply.bucket := None |}
       else ret {| CreateReply.status := 500; CreateReply.success := false;
                   CreateReply.message := message error;
                   CreateReply.bucket := None |}).

End CreateRoute.

(** * Properties *)

Unset Implicit Arguments.

(** ** String primitives against their meaning *)

Lemma startsWith_spec (p s : jsstring) :
  startsWith s p = true <-> exists t, s = p ++ t.
Proof.
  revert s. induction p as [|a p IH]; intros s; simpl.
  - split; [intros _; exists s; reflexivity | intros _; destruct s; reflexivity].
  - destruct s as [|b s]; simpl.
    + split; [discriminate | intros [t Ht]; discriminate].
    + rewrite andb_true_iff, N.eqb_eq, IH. split.
      * intros [-> [t ->]]. exists t. reflexivity.
      * intros [t Ht]. injection Ht as -> ->. split; [reflexivity | exists t; reflexivity].
Qed.

Lemma endsWith_spec (p s : jsstring) :
  endsWith s p = true <-> exists t, s = t ++ p.
Proof.
  unfold endsWith. rewrite startsWith_spec. split; intros [t Ht].
  - exists (rev t). rewrite <- (rev_involutive s), Ht, rev_app_distr.
    rewrite rev_involutive. reflexivity.
  - exists (rev t). rewrite Ht, rev_app_distr. reflexivity.
Qed.

Lemma includes_spec (sub s : jsstring) :
  includes s sub = true <-> contains s sub.
Proof.
  unfold contains. induction s as [|c s IH]; cbn [includes].
  - rewrite orb_false_r, startsWith_spec. split.
    + intros [t Ht]. exists [], t. exact Ht.
    + intros [pre [post H]]. destruct pre; [exists post; exact H | discriminate].
  - rewrite orb_true_iff, startsWith_spec, IH. split.
    + intros [[t Ht] | [pre [post H]]].
      * exists [], t. exact Ht.
      * exists (c :: pre), post. rewrite H. reflexivity.
    + intros [pre [post H]]. destruct pre as [|d pre].
      * left. exists post. exact H.
      * right. injection H as _ H. exists pre, post. exact H.
Qed.

Lemma bucket_char_spec (c : N) : bucket_char c = true <-> in_class c.
Proof.
  unfold bucket_char, in_class, is_lower, is_digit, dot, hyphen.
  rewrite !orb_true_iff, !andb_true_iff, !N.leb_le, !N.eqb_eq. tauto.
Qed.

Lemma bucket_regex_test_spec (s : jsstring) :
  bucket_regex_test s = true <-> s <> [] /\ forall c, In c s -> in_class c.
Proof.
  unfold bucket_regex_test. destruct s as [|a s].
  - split; [discriminate | intros [H _]; congruence].
  - rewrite forallb_forall. split.
    + intros H. split; [discriminate |]. intros c Hc. apply bucket_char_spec, H, Hc.
    + intros [_ H] c Hc. apply bucket_char_spec, H, Hc.
Qed.

Lemma not_true_iff_false' (b : bool) (P : Prop) :
  (b = true <-> P) -> (b = false <-> ~ P).
Proof. intros H. rewrite <- H. destruct b; split; congruence. Qed.

Lemma violated_spec (r : Rule) (s : jsstring) :
  violates r s = true <-> violated r s.
Proof.
  destruct r; simpl.
  - destruct s; simpl; split; congruence.
  - rewrite orb_true_iff, !Nat.ltb_lt. tauto.
  - rewrite negb_true_iff, (not_true_iff_false' _ _ (bucket_regex_test_spec s)). tauto.
  - rewrite orb_true_iff, startsWith_spec, endsWith_spec. tauto.
  - apply includes_spec.
  - rewrite orb_true_iff, !includes_spec. tauto.
Qed.

(** ** The bucket-name validator *)

Lemma validateBucketName_unfold (s : jsstring) :
  validateBucketName s =
  if violates Required s then Throw (Error (reason Required))
  else if violates Length s then Throw (Error (reason Length))
  else if violates Charset s then Throw (Error (reason Charset))
  else if violates EdgeDot s then Throw (Error (reason EdgeDot))
  else if violates ConsecutiveDots s then Throw (Error (reason ConsecutiveDots))
  else if violates DotHyphen s then Throw (Error (reason DotHyphen))
  else Normal tt.
Proof. reflexivity. Qed.

Lemma validateBucketName_normal (s : jsstring) :
  validateBucketName s = Normal tt <-> forall r, violates r s = false.
Proof.
  rewrite validateBucketName_unfold. split.
  - intros H r.
    destruct (violates Required s) eqn:H1; [discriminate|].
    destruct (violates Length s) eqn:H2; [discriminate|].
    destruct (violates Charset s) eqn:H3; [discriminate|].
    destruct (violates EdgeDot s) eqn:H4; [discriminate|].
    destruct (violates ConsecutiveDots s) eqn:H5; [discriminate|].
    destruct (violates DotHyphen s) eqn:H6; [discriminate|].
    destruct r; assumption.
  - intros H.
    rewrite (H Required), (H Length), (H Charset), (H EdgeDot),
      (H ConsecutiveDots), (H DotHyphen). reflexivity.
Qed.

Lemma validateBucketName_throw (s : jsstring) (e : JsError) :
  validateBucketName s = Throw e ->
  exists r, violates r s = true /\
            (forall r', In r' (earlier r) -> violates r' s = false) /\
            e = Error (reason r).
Proof.
  rewrite validateBucketName_unfold. intros H.
  destruct (violates Required s) eqn:H1;
    [exists Required | destruct (violates Length s) eqn:H2;
    [exists Length | destruct (violates Charset s) eqn:H3;
    [exists Charset | destruct (violates EdgeDot s) eqn:H4;
    [exists EdgeDot | destruct (violates ConsecutiveDots s) eqn:H5;
    [exists ConsecutiveDots | destruct (violates DotHyphen s) eqn:H6;
    [exists DotHyphen | discriminate]]]]]];
    (split; [assumption | split; [| congruence]]);
    simpl; intros r' Hr'; intuition (subst; assumption).
Qed.

Lemma violated_false (r : Rule) (s : jsstring) :
  violates r s = false <-> ~ violated r s.
Proof. apply not_true_iff_false', violated_spec. Qed.

Lemma well_named_iff (s : jsstring) :
  well_named s <-> forall r, ~ violated r s.
Proof.
  unfold well_named. split.
  - intros (Hl & Hc & Hs & He & Hdd & Hdh & Hhd) r. destruct r; simpl.
    + intros ->. simpl in Hl. lia.
    + lia.
    + tauto.
    + tauto.
    + assumption.
    + tauto.
  - intros H.
    pose proof (H Length) as Hl. pose proof (H Charset) as Hc.
    pose proof (H EdgeDot) as He. pose proof (H ConsecutiveDots) as Hdd.
    pose proof (H DotHyphen) as Hdh. simpl in *.
    assert (Hcls : s <> [] /\ forall c, In c s -> in_class c).
    { destruct (bucket_regex_test s) eqn:Ht.
      - apply bucket_regex_test_spec, Ht.
      - exfalso. apply Hc. intros Hok.
        apply bucket_regex_test_spec in Hok. congruence. }
    split; [lia | split; [exact Hcls | tauto]].
Qed.

(** C6: the validator accepts a name exactly when the name has length in
    [3,63], consists of lowercase letters, digits, dots and hyphens, does
    not start or end with a dot, has no two dots in a row and no dot next
    to a hyphen; and when it rejects, the error carries the reason of the
    first rule, in the order the code checks them, that the name breaks. *)
Theorem validateBucketName_accepts_iff (s : jsstring) :
  (validateBucketName s = Normal tt <-> well_named s) /\
  (forall e, validateBucketName s = Throw e ->
     exists r, violated r s /\
               (forall r', In r' (earlier r) -> ~ violated r' s) /\
               e = Error (reason r)).
Proof.
  split.
  - rewrite validateBucketName_normal, well_named_iff.
    split; intros H r; apply violated_false, H.
  - intros e He. destruct (validateBucketName_throw s e He) as (r & Hr & Hearly & ->).
    exists r. split; [apply violated_spec, Hr | split; [| reflexivity]].
    intros r' Hr'. apply violated_false, Hearly, Hr'.
Qed.

(** The scenarios of the specification. *)
Example validateBucketName_ab :
  validateBucketName (lit "ab") = Throw (Error (reason Length)).
Proof. reflexivity. Qed.

Example validateBucketName_my_bucket :
  validateBucketName (lit "my..bucket") = Throw (Error (reason ConsecutiveDots)).
Proof. reflexivity. Qed.

Example validateBucketName_valid :
  validateBucketName (lit "valid-bucket.name") = Normal tt.
Proof. reflexivity. Qed.

(** C7, as stated, fails: the validator reports a rejected name by
    throwing, here for a name that is too short. *)
Lemma validateBucketName_throws_on_short_name :
  validateBucketName (lit "ab") = Throw (Error msg_length) /\
  ~ (exists v, validateBucketName (lit "ab") = Normal v).
Proof.
  split; [reflexivity |]. intros [v Hv]. discriminate Hv.
Qed.

(** C7, amended: on every string the validator finishes in one of two
    ways: it returns (with no value) or it throws a plain Error, without
    code or payload, whose message is one of the six fixed reasons. *)
Theorem validateBucketName_returns_or_throws_reason (s : jsstring) :
  validateBucketName s = Normal tt \/
  exists r, validateBucketName s = Throw (Error (reason r)).
Proof.
  destruct (validateBucketName s) as [[]|e] eqn:H.
  - left. reflexivity.
  - right. destruct (validateBucketName_throw s e H) as (r & _ & _ & ->).
    exists r. reflexivity.
Qed.

(** ** Running asynchronous code *)

Section Running.
Context {E : Environment}.

Lemma run_bind_normal {A B} (m : M A) (k : A -> M B) (w w1 : World)
  (a : A) (t : list Sent) :
  m w = {| result := Normal a; final := w1; trace := t |} ->
  bind m k w = after_trace t (k a w1).
Proof. intros H. unfold bind. rewrite H. reflexivity. Qed.

Lemma run_bind_throw {A B} (m : M A) (k : A -> M B) (w w1 : World)
  (e : JsError) (t : list Sent) :
  m w = {| result := Throw e; final := w1; trace := t |} ->
  bind m k w = {| result := Throw e; final := w1; trace := t |}.
Proof. intros H. unfold bind. rewrite H. reflexivity. Qed.

Lemma run_try_normal {A} (body : M A) (h : JsError -> M A) (w w1 : World)
  (a : A) (t : list Sent) :
  body w = {| result := Normal a; final := w1; trace := t |} ->
  try_catch body h w = {| result := Normal a; final := w1; trace := t |}.
Proof. intros H. unfold try_catch. rewrite H. reflexivity. Qed.

Lemma run_try_throw {A} (body : M A) (h : JsError -> M A) (w w1 : World)
  (e : JsError) (t : list Sent) :
  body w = {| result := Throw e; final := w1; trace := t |} ->
  try_catch body h w = after_trace t (h e w1).
Proof. intros H. unfold try_catch. rewrite H. reflexivity. Qed.

Lemma run_s3Client_send (c : S3Command) (w w1 : World)
  (r : completion (S3Output c)) :
  s3Client c w = (r, w1) ->
  s3Client_send c w =
  {| result := r; final := w1;
     trace := [ {| command := S3 c; failure := failure_of r |} ] |}.
Proof. intros H. unfold s3Client_send. rewrite H. reflexivity. Qed.

Lemma run_s3ControlClient_send (c : S3ControlCommand) (w w1 : World)
  (r : completion (S3ControlOutput c)) :
  s3ControlClient c w = (r, w1) ->
  s3ControlClient_send c w =
  {| result := r; final := w1;
     trace := [ {| command := S3Control c; failure := failure_of r |} ] |}.
Proof. intros H. unfold s3ControlClient_send. rewrite H. reflexivity. Qed.

End Running.

(** ** Plain delete *)

Section PlainDelete.
Context {E : Environment}.

Lemma deleteBucket_not_empty_run (bucketName : jsstring) (w w' : World)
  (out : ListObjectsV2Output) (item : S3Object) (items : list S3Object) :
  s3Client (ListObjectsV2Command bucketName None None None) w = (Normal out, w') ->
  Contents out = Some (item :: items) ->
  deleteBucket bucketName w =
  {| result := Throw (Error (lit "Failed to delete bucket: Cannot delete bucket that contains objects"));
     final := w';
     trace := [ ok (S3 (ListObjectsV2Command bucketName None None None)) ] |}.
Proof.
  intros Hlist Hcontents. unfold deleteBucket.
  erewrite run_try_throw; cycle 1.
  { erewrite run_bind_normal; [| apply run_s3Client_send, Hlist].
    cbn beta. rewrite Hcontents. reflexivity. }
  reflexivity.
Qed.

(** C3: when the listing of the bucket returns at least one item, plain
    delete fails with the not-empty error, the listing is the only command
    it sends (the provider's delete is never invoked), the state is the one
    the listing left, and the route answers 409 with that message. *)
Theorem deleteBucket_not_empty (bucketName : jsstring) (w w' : World)
  (out : ListObjectsV2Output) (item : S3Object) (items : list S3Object) :
  s3Client (ListObjectsV2Command bucketName None None None) w = (Normal out, w') ->
  Contents out = Some (item :: items) ->
  let msg := lit "Failed to delete bucket: Cannot delete bucket that contains objects" in
  let o := deleteBucket bucketName w in
  result o = Throw (Error msg) /\
  trace o = [ ok (S3 (ListObjectsV2Command bucketName None None None)) ] /\
  final o = w' /\
  (validate bucketNameSchema bucketName = None ->
   let r := route_DELETE_bucket bucketName w in
   result r = Normal (reply 409 false msg) /\ trace r = trace o /\ final r = w').
Proof.
  intros Hlist Hcontents msg o.
  pose proof (deleteBucket_not_empty_run _ _ _ _ _ _ Hlist Hcontents) as Ho. fold o in Ho.
  rewrite Ho. repeat split.
  all: unfold route_DELETE_bucket; rewrite H;
    erewrite run_try_throw by (erewrite run_bind_throw; [reflexivity | exact Ho]);
    reflexivity.
Qed.

End PlainDelete.

Lemma deleteBucket_not_empty_demo :
  result (@deleteBucket Scenario.configured (lit "demo") Scenario.demo) =
    Throw (Error (lit "Failed to delete bucket: Cannot delete bucket that contains objects")) /\
  map command (trace (@deleteBucket Scenario.configured (lit "demo") Scenario.demo)) =
    [ S3 (ListObjectsV2Command (lit "demo") None None None) ] /\
  final (@deleteBucket Scenario.configured (lit "demo") Scenario.demo) = Scenario.demo /\
  Reply.status
    (match result (@route_DELETE_bucket Scenario.configured (lit "demo") Scenario.demo) with
     | Normal r => r
     | Throw _ => reply 0 false []
     end) = 409%nat.
Proof.
  destruct (@deleteBucket_not_empty Scenario.configured (lit "demo")
              Scenario.demo Scenario.demo
              {| Contents := Some [ {| Key := lit "a.txt"; Size := 3 |}; {| Key := lit "b.txt"; Size := 4 |} ];
                 IsTruncated := Some false; NextContinuationToken := None;
                 KeyCount := Some 2%nat |}
              {| Key := lit "a.txt"; Size := 3 |}
              [ {| Key := lit "b.txt"; Size := 4 |} ]
              eq_refl eq_refl) as (Hr & Ht & Hf & Hroute).
  destruct (Hroute eq_refl) as (Hrr & _ & _).
  split; [exact Hr | split; [rewrite Ht; reflexivity | split; [exact Hf |]]].
  rewrite Hrr. reflexivity.
Defined.

Section PlainDeleteErrors.
Context {E : Environment}.

Lemma try_catch_throws {A} (body : M A) (h : JsError -> M A) (w : World)
  (e : JsError) :
  result (try_catch body h w) = Throw e ->
  exists e0, result (body w) = Throw e0 /\
             result (h e0 (final (body w))) = Throw e.
Proof.
  unfold try_catch. destruct (result (body w)) as [a|e0] eqn:Hb.
  - rewrite Hb. discriminate.
  - intros H. exists e0. split; [reflexivity | exact H].
Qed.

(** Whatever goes wrong inside plain delete leaves it as a fresh Error
    with a prefixed message: no code and no payload survive. *)
Lemma deleteBucket_throws_plain_error (bucketName : jsstring) (w : World)
  (e : JsError) :
  result (deleteBucket bucketName w) = Throw e ->
  exists m, e = Error (lit "Failed to delete bucket: " ++ m).
Proof.
  unfold deleteBucket. intros H.
  apply try_catch_throws in H as (e0 & _ & H).
  cbn in H. injection H as <-. exists (message e0). reflexivity.
Qed.

(** So the route never takes its access-point branch: no reply of the
    plain-delete route carries a code or a list of access points. *)
Lemma route_DELETE_bucket_reply_has_no_code (name : jsstring) (w : World)
  (r : Reply.t) :
  result (route_DELETE_bucket name w) = Normal r ->
  Reply.code r = None /\ Reply.accessPoints r = None.
Proof.
  unfold route_DELETE_bucket. destruct (validate bucketNameSchema name).
  - cbn. intros H. injection H as <-. split; reflexivity.
  - unfold try_catch, bind.
    destruct (result (deleteBucket name w)) as [a|e] eqn:Hd; cbn.
    + intros H. injection H as <-. split; reflexivity.
    + destruct (deleteBucket_throws_plain_error _ _ _ Hd) as [m ->].
      destruct (includes _ _); [cbn; intros H; injection H as <-; split; reflexivity |].
      destruct (says_not_found _); [cbn; intros H; injection H as <-; split; reflexivity |].
      cbn. intros H; injection H as <-; split; reflexivity.
Qed.

End PlainDeleteErrors.

(** C2 on the scenario of the specification: plain delete of "demo2"
    (no item, access points ap1 and ap2, account configured). The error
    built with code BUCKET_HAS_ACCESS_POINTS and the list of access points
    is replaced on its way out by a fresh Error that keeps only the
    message, and the route answers 500 without code or payload. Nothing
    is deleted: the delete of the bucket was refused, no delete of an
    access point was sent, and the state is unchanged. *)
Theorem deleteBucket_demo2_loses_code_and_payload :
  result (@deleteBucket Scenario.configured (lit "demo2") Scenario.demo2) =
    Throw {| name := lit "Error";
             message := lit "Failed to delete bucket: Bucket has 2 access point(s) attached: ap1, ap2. These must be deleted before the bucket can be removed.";
             code := None;
             accessPoints := None |} /\
  result (@route_DELETE_bucket Scenario.configured (lit "demo2") Scenario.demo2) =
    Normal {| Reply.status := 500; Reply.success := false;
              Reply.message := Some (lit "Failed to delete bucket: Bucket has 2 access point(s) attached: ap1, ap2. These must be deleted before the bucket can be removed.");
              Reply.code := None; Reply.accessPoints := None;
              Reply.bucket := None |} /\
  trace (@deleteBucket Scenario.configured (lit "demo2") Scenario.demo2) =
    [ ok (S3 (ListObjectsV2Command (lit "demo2") None None None));
      failed (S3 (DeleteBucketCommand (lit "demo2"))) Sim.HasAccessPoints;
      ok (S3Control (ListAccessPointsCommand Scenario.account (lit "demo2"))) ] /\
  final (@deleteBucket Scenario.configured (lit "demo2") Scenario.demo2) =
    Scenario.demo2.
Proof. vm_compute. repeat split. Qed.

Section EmptinessCheck.
Context {E : Environment}.

(** *** What a computation sends, piece by piece *)

Lemma sends_only_ret {A} (P : Command -> bool) (a : A) : sends_only P (ret a).
Proof. intros w. reflexivity. Qed.

Lemma sends_only_throw {A} (P : Command -> bool) (e : JsError) :
  sends_only P (@throw _ A e).
Proof. intros w. reflexivity. Qed.

Lemma sends_only_bind {A B} (P : Command -> bool) (m : M A) (k : A -> M B) :
  sends_only P m -> (forall a, sends_only P (k a)) -> sends_only P (bind m k).
Proof.
  intros Hm Hk w. unfold bind. specialize (Hm w).
  destruct (result (m w)) as [a|e]; cbn [trace after_trace]; [| exact Hm].
  rewrite forallb_app, Hm. apply Hk.
Qed.

Lemma sends_only_try {A} (P : Command -> bool) (body : M A)
  (h : JsError -> M A) :
  sends_only P body -> (forall e, sends_only P (h e)) ->
  sends_only P (try_catch body h).
Proof.
  intros Hb Hh w. unfold try_catch. specialize (Hb w).
  destruct (result (body w)) as [a|e]; cbn [trace after_trace]; [exact Hb |].
  rewrite forallb_app, Hb. apply Hh.
Qed.

Lemma sends_only_s3Client_send (P : Command -> bool) (c : S3Command) :
  P (S3 c) = true -> sends_only P (s3Client_send c).
Proof.
  intros Hc w. unfold s3Client_send. destruct (s3Client c w). cbn.
  rewrite Hc. reflexivity.
Qed.

Lemma sends_only_s3ControlClient_send (P : Command -> bool)
  (c : S3ControlCommand) :
  P (S3Control c) = true -> sends_only P (s3ControlClient_send c).
Proof.
  intros Hc w. unfold s3ControlClient_send. destruct (s3ControlClient c w). cbn.
  rewrite Hc. reflexivity.
Qed.

(** A try block that starts by sending [c]: its trace starts with [c],
    and what follows is what the rest of the block and the handler send. *)
Lemma trace_of_try_after_send {A} (P : Command -> bool) (c : S3Command)
  (k : S3Output c -> M A) (h : JsError -> M A) (w : World) :
  (forall a, sends_only P (k a)) -> (forall e, sends_only P (h e)) ->
  exists answer rest,
    trace (try_catch (bind (s3Client_send c) k) h w) =
      {| command := S3 c; failure := answer |} :: rest /\
    forallb (fun s => P (command s)) rest = true.
Proof.
  intros Hk Hh. unfold try_catch, bind, s3Client_send.
  destruct (s3Client c w) as [[a|e] w1]; cbn [result final trace after_trace].
  - specialize (Hk a w1). destruct (result (k a w1)) as [b|e];
      cbn [result trace final after_trace app].
    + do 2 eexists. split; [reflexivity | exact Hk].
    + do 2 eexists. split; [reflexivity |].
      rewrite forallb_app, Hk. apply Hh.
  - do 2 eexists. split; [reflexivity |]. cbn [app]. apply Hh.
Qed.

(** For every provider, the emptiness check of plain delete is one
    listing, the first command sent, that names only the bucket: it sets
    no MaxKeys (and no prefix or continuation token), and no further
    listing follows it. *)
Theorem deleteBucket_emptiness_check_is_one_unbounded_listing
  (bucketName : jsstring) (w : World) :
  exists answer rest,
    trace (deleteBucket bucketName w) =
      {| command := S3 (ListObjectsV2Command bucketName None None None);
         failure := answer |} :: rest /\
    forallb (fun s => negb (is_listing (command s))) rest = true.
Proof.
  unfold deleteBucket.
  apply (trace_of_try_after_send (fun c => negb (is_listing c)));
    [| intros e; apply sends_only_throw].
  intros objectsResponse.
  destruct (has_elements (Contents objectsResponse)); [apply sends_only_throw |].
  apply sends_only_try.
  { apply sends_only_bind;
      [apply sends_only_s3Client_send; reflexivity | intros; apply sends_only_ret]. }
  intros error. apply sends_only_bind; [| intros; apply sends_only_throw].
  destruct (truthy (Some (message error)) && includes (message error) _);
    [| apply sends_only_ret].
  apply sends_only_try.
  - destruct AWS_ACCOUNT_ID as [[|c accountId]|]; try apply sends_only_throw.
    apply sends_only_bind.
    + unfold listAccessPoints. apply sends_only_try.
      * apply sends_only_bind;
          [apply sends_only_s3ControlClient_send; reflexivity
          | intros; apply sends_only_ret].
      * intros; apply sends_only_ret.
    + intros accessPoints.
      destruct (0 <? length accessPoints)%nat;
        [apply sends_only_throw | apply sends_only_ret].
  - intros accessPointError.
    destruct (optstring_eqb (code accessPointError) BUCKET_HAS_ACCESS_POINTS);
      apply sends_only_throw.
Qed.

End EmptinessCheck.

(** C5 on "demo" (two items): the listing that plain delete sends for
    its emptiness check carries no MaxKeys, so it is not capped at 1, and
    the provider answers it with every item of the bucket. The presence
    check of the get-bucket route, on the same bucket, does carry a
    MaxKeys of 1. *)
Lemma deleteBucket_listing_is_not_capped_at_1 :
  hd_error (map command
    (trace (@deleteBucket Scenario.configured (lit "demo") Scenario.demo))) =
    Some (S3 (ListObjectsV2Command (lit "demo") None None None)) /\
  max_keys (S3 (ListObjectsV2Command (lit "demo") None None None)) <> Some 1%nat /\
  fst (Sim.s3 (ListObjectsV2Command (lit "demo") None None None) Scenario.demo) =
    Normal {| Contents := Some [ {| Key := lit "a.txt"; Size := 3 |};
                                 {| Key := lit "b.txt"; Size := 4 |} ];
              IsTruncated := Some false;
              NextContinuationToken := None;
              KeyCount := Some 2%nat |} /\
  option_map max_keys
    (hd_error (map command
       (trace (@route_GET_bucket Scenario.configured 1 (lit "demo") Scenario.demo)))) =
    Some (Some 1%nat).
Proof.
  split; [reflexivity | split; [discriminate | split; reflexivity]].
Qed.

(** ** Forced delete *)

Section ForcedDelete.
Context {E : Environment}.

(** The listing of access points sends one command and never throws. *)
Lemma listAccessPoints_run (bucketName accountId : jsstring) (w : World) :
  exists aps w1 f,
    listAccessPoints bucketName accountId w =
    {| result := Normal aps; final := w1;
       trace := [ {| command := S3Control (ListAccessPointsCommand accountId bucketName);
                     failure := f |} ] |}.
Proof.
  unfold listAccessPoints, try_catch, bind, s3ControlClient_send.
  destruct (s3ControlClient (ListAccessPointsCommand accountId bucketName) w)
    as [[out|e] w1]; cbn; do 3 eexists; reflexivity.
Qed.

Lemma deleteAccessPoint_run (accessPointName accountId : jsstring) (w : World) :
  let c := S3Control (DeleteAccessPointCommand accountId accessPointName) in
  (exists r w1, deleteAccessPoint accessPointName accountId w =
     {| result := Normal r; final := w1; trace := [ ok c ] |}) \/
  (exists e w1, deleteAccessPoint accessPointName accountId w =
     {| result := Throw (Error (lit "Failed to delete access point " ++
                                accessPointName ++ lit ": " ++ message e));
        final := w1; trace := [ failed c e ] |}).
Proof.
  unfold deleteAccessPoint, try_catch, bind, s3ControlClient_send.
  destruct (s3ControlClient (DeleteAccessPointCommand accountId accessPointName) w)
    as [[out|e] w1]; cbn; [left | right]; do 2 eexists; reflexivity.
Qed.

(** The loop over the access points: either every delete succeeds, or
    the loop stops at the first delete that fails. *)
Lemma delete_loop_cases (accountId : jsstring) (aps : list AccessPoint) (w : World) :
  let body := fun accessPoint : AccessPoint =>
                (deleteAccessPoint (Name accessPoint) accountId ;; ret tt) in
  (exists w1, for_of aps body w =
     {| result := Normal tt; final := w1;
        trace := map (fun ap => ok (delete_of accountId ap)) aps |}) \/
  (exists i ap e w1,
     nth_error aps i = Some ap /\
     for_of aps body w =
     {| result := Throw (Error (lit "Failed to delete access point " ++
                                Name ap ++ lit ": " ++ message e));
        final := w1;
        trace := map (fun ap => ok (delete_of accountId ap)) (firstn i aps) ++
                 [ failed (delete_of accountId ap) e ] |}).
Proof.
  intros body. revert w. induction aps as [|a aps IH]; intros w.
  - left. exists w. reflexivity.
  - cbn [for_of].
    destruct (deleteAccessPoint_run (Name a) accountId w)
      as [(r & w1 & Hd) | (e & w1 & Hd)].
    + assert (Hb : body a w = {| result := Normal tt; final := w1;
                                 trace := [ ok (delete_of accountId a) ] |}).
      { unfold body. erewrite run_bind_normal by exact Hd. reflexivity. }
      erewrite run_bind_normal by exact Hb.
      destruct (IH w1) as [(w2 & Hl) | (i & ap & e & w2 & Hi & Hl)]; rewrite Hl.
      * left. exists w2. reflexivity.
      * right. exists (S i), ap, e, w2. split; [exact Hi | reflexivity].
    + assert (Hb : body a w =
                   {| result := Throw (Error (lit "Failed to delete access point " ++
                                              Name a ++ lit ": " ++ message e));
                      final := w1;
                      trace := [ failed (delete_of accountId a) e ] |}).
      { unfold body. erewrite run_bind_throw by exact Hd. reflexivity. }
      erewrite run_bind_throw by exact Hb.
      right. exists 0%nat, a, e, w1. split; reflexivity.
Qed.

Lemma guarded_loop (aps : list AccessPoint) (body : AccessPoint -> M unit) :
  (if (0 <? length aps)%nat then for_of aps body else ret tt) = for_of aps body.
Proof. destruct aps; reflexivity. Qed.

(** The three ways a forced delete can go: all deletes and the delete of
    the bucket succeed; all deletes succeed and the delete of the bucket
    fails; or the delete of access point [i] fails. *)
Lemma forced_delete_cases (bucketName accountId : jsstring) (w : World) :
  exists aps f,
    result (listAccessPoints bucketName accountId w) = Normal aps /\
    let head := {| command := S3Control (ListAccessPointsCommand accountId bucketName);
                   failure := f |} in
    let deleted := map (fun ap => ok (delete_of accountId ap)) in
    let o := deleteBucketWithAccessPoints bucketName accountId w in
    (exists w1,
       o = {| result :=
                Normal {| Result.success := true;
                          Result.message :=
                            if (0 <? length aps)%nat
                            then lit "Bucket deleted successfully after removing " ++
                                 toString (length aps) ++ lit " access point(s)"
                            else lit "Bucket deleted successfully" |};
              final := w1;
              trace := head :: deleted aps ++ [ ok (S3 (DeleteBucketCommand bucketName)) ] |}) \/
    (exists w1 e,
       o = {| result := Throw (Error (lit "Failed to delete bucket with access points: " ++
                                      message e));
              final := w1;
              trace := head :: deleted aps ++
                       [ failed (S3 (DeleteBucketCommand bucketName)) e ] |}) \/
    (exists w1 i ap e,
       nth_error aps i = Some ap /\
       o = {| result := Throw (Error (lit "Failed to delete bucket with access points: " ++
                                      (lit "Failed to delete access point " ++
                                       Name ap ++ lit ": " ++ message e)));
              final := w1;
              trace := head :: deleted (firstn i aps) ++
                       [ failed (delete_of accountId ap) e ] |}).
Proof.
  destruct (listAccessPoints_run bucketName accountId w) as (aps & w1 & f & Hl).
  exists aps, f. split; [rewrite Hl; reflexivity |].
  intros head deleted o. subst o. unfold deleteBucketWithAccessPoints.
  match goal with
  | |- context [try_catch ?b ?h w] => set (body := b); set (handler := h)
  end.
  destruct (delete_loop_cases accountId aps w1)
    as [(w2 & Hloop) | (i & ap & e & w2 & Hi & Hloop)].
  - destruct (s3Client (DeleteBucketCommand bucketName) w2) as [[[]|e] w3] eqn:Hdel.
    + left. exists w3. erewrite run_try_normal; cycle 1.
      { unfold body. erewrite run_bind_normal by exact Hl.
        rewrite guarded_loop. erewrite run_bind_normal by exact Hloop.
        erewrite run_bind_normal by (apply run_s3Client_send, Hdel).
        reflexivity. }
      reflexivity.
    + right; left. exists w3, e. erewrite run_try_throw; cycle 1.
      { unfold body. erewrite run_bind_normal by exact Hl.
        rewrite guarded_loop. erewrite run_bind_normal by exact Hloop.
        erewrite run_bind_throw by (apply run_s3Client_send, Hdel).
        reflexivity. }
      subst handler. unfold after_trace, throw. cbn [result final trace].
      rewrite app_nil_r. reflexivity.
  - right; right. exists w2, i, ap, e. split; [exact Hi |].
    erewrite run_try_throw; cycle 1.
    { unfold body. erewrite run_bind_normal by exact Hl.
      rewrite guarded_loop. erewrite run_bind_throw by exact Hloop.
      reflexivity. }
    subst handler. unfold after_trace, throw. cbn [result final trace].
    rewrite app_nil_r. reflexivity.
Qed.

(** *** Counting on traces *)

Lemma cleared_app (t1 t2 : list Sent) :
  cleared (t1 ++ t2) = (cleared t1 + cleared t2)%nat.
Proof. unfold cleared. rewrite filter_app, length_app. reflexivity. Qed.

Lemma cleared_deleted (accountId : jsstring) (l : list AccessPoint) :
  cleared (map (fun ap => ok (delete_of accountId ap)) l) = length l.
Proof.
  induction l as [|a l IH]; [reflexivity |].
  unfold cleared in *. cbn. rewrite IH. reflexivity.
Qed.

Lemma commands_deleted (accountId : jsstring) (l : list AccessPoint) :
  map command (map (fun ap => ok (delete_of accountId ap)) l) =
  map (delete_of accountId) l.
Proof. rewrite map_map. reflexivity. Qed.

Lemma no_DeleteBucket_deleted (accountId : jsstring) (l : list AccessPoint) :
  existsb (fun s => is_DeleteBucket (command s))
    (map (fun ap => ok (delete_of accountId ap)) l) = false.
Proof. induction l as [|a l IH]; [reflexivity | cbn; exact IH]. Qed.

Lemma deleted_answers (accountId : jsstring) (l : list AccessPoint) (s : Sent) :
  In s (map (fun ap => ok (delete_of accountId ap)) l) -> failure s = None.
Proof. rewrite in_map_iff. intros (ap & <- & _). reflexivity. Qed.

Lemma firstn_snoc (aps : list AccessPoint) (i : nat) (ap : AccessPoint) :
  nth_error aps i = Some ap ->
  firstn (S i) aps = firstn i aps ++ [ap] /\ length (firstn i aps) = i.
Proof.
  revert i. induction aps as [|a aps IH]; intros [|i] H; try discriminate.
  - injection H as ->. split; reflexivity.
  - destruct (IH i H) as [H1 H2]. cbn [firstn length app].
    rewrite <- H1, H2. split; reflexivity.
Qed.

(** The entry of a trace [deleted l ++ [x]] at a position where a delete
    of an access point failed is the last one. *)
Lemma failed_delete_is_last (accountId : jsstring) (l : list AccessPoint)
  (x s : Sent) (i : nat) (e : JsError) :
  nth_error (map (fun ap => ok (delete_of accountId ap)) l ++ [x]) i = Some s ->
  failure s = Some e ->
  i = length l /\ s = x.
Proof.
  intros Hn Hf.
  destruct (Nat.lt_ge_cases i (length (map (fun ap => ok (delete_of accountId ap)) l)))
    as [Hlt | Hge].
  - rewrite nth_error_app1 in Hn by exact Hlt.
    apply nth_error_In, deleted_answers in Hn. congruence.
  - rewrite nth_error_app2 in Hn by exact Hge.
    rewrite length_map in *.
    destruct (i - length l)%nat as [|k] eqn:Hk.
    + cbn in Hn. injection Hn as <-. split; [lia | reflexivity].
    + cbn in Hn. destruct k; discriminate.
Qed.

(** C1, amended: forced delete is fail-stop. With the access points [aps]
    that the listing returned, every run goes one of three ways. Either
    it sends the listing, one delete per access point in order and then
    the delete of the bucket, all answered without error, and succeeds,
    its message reporting their number when there is at least one. Or
    all these deletes go through and the provider refuses the delete of
    the bucket. Or the delete of some access point [i] fails, and that
    delete is the last command sent: exactly [i] access points were
    deleted, none after [i] is touched, the delete of the bucket is not
    sent, and the error names the access point that failed with the
    provider's reason. It does not state a count. *)
Theorem deleteBucketWithAccessPoints_fail_stop
  (bucketName accountId : jsstring) (w : World) (aps : list AccessPoint) :
  result (listAccessPoints bucketName accountId w) = Normal aps ->
  let o := deleteBucketWithAccessPoints bucketName accountId w in
  let listing := S3Control (ListAccessPointsCommand accountId bucketName) in
  ((exists r,
      result o = Normal r /\
      map command (trace o) =
        listing :: map (delete_of accountId) aps ++
        [ S3 (DeleteBucketCommand bucketName) ] /\
      (forall s, In s (tl (trace o)) -> failure s = None) /\
      cleared (trace o) = length aps) \/
   (exists e,
      result o =
        Throw (Error (lit "Failed to delete bucket with access points: " ++
                      message e)) /\
      map command (trace o) =
        listing :: map (delete_of accountId) aps ++
        [ S3 (DeleteBucketCommand bucketName) ] /\
      In (failed (S3 (DeleteBucketCommand bucketName)) e) (trace o) /\
      cleared (trace o) = length aps) \/
   (exists i ap e,
      nth_error aps i = Some ap /\
      nth_error (trace o) (S i) = Some (failed (delete_of accountId ap) e) /\
      map command (trace o) =
        listing :: map (delete_of accountId) (firstn (S i) aps))) /\
  (forall r, result o = Normal r ->
     map command (trace o) =
       listing :: map (delete_of accountId) aps ++
       [ S3 (DeleteBucketCommand bucketName) ] /\
     cleared (trace o) = length aps /\
     (forall s, In s (tl (trace o)) -> failure s = None) /\
     Result.success r = true /\
     ((0 < length aps)%nat ->
      Result.message r =
        lit "Bucket deleted successfully after removing " ++
        toString (length aps) ++ lit " access point(s)")) /\
  (forall i s e,
     nth_error (trace o) (S i) = Some s ->
     is_DeleteAccessPoint (command s) = true ->
     failure s = Some e ->
     exists ap,
       nth_error aps i = Some ap /\
       map command (trace o) =
         listing :: map (delete_of accountId) (firstn (S i) aps) /\
       cleared (trace o) = i /\
       existsb (fun s => is_DeleteBucket (command s)) (trace o) = false /\
       result o =
         Throw (Error (lit "Failed to delete bucket with access points: Failed to delete access point " ++
                       Name ap ++ lit ": " ++ message e))).
Proof.
  intros Haps o listing.
  destruct (forced_delete_cases bucketName accountId w) as (aps' & f & Haps' & Hcases).
  rewrite Haps in Haps'. injection Haps' as <-.
  cbv zeta in Hcases. fold o in Hcases.
  assert (Hcount : forall l x,
            is_DeleteAccessPoint (command x) &&
            match failure x with None => true | Some _ => false end = false ->
            cleared ({| command := listing; failure := f |} ::
                     map (fun ap => ok (delete_of accountId ap)) l ++ [x]) = length l).
  { intros l x Hx.
    change (cleared ([{| command := listing; failure := f |}] ++
                     map (fun ap => ok (delete_of accountId ap)) l ++ [x]) = length l).
    rewrite !cleared_app, cleared_deleted. unfold cleared. cbn. rewrite Hx. cbn. lia. }
  assert (Hcommands : forall l x,
            map command ({| command := listing; failure := f |} ::
                         map (fun ap => ok (delete_of accountId ap)) l ++ [x]) =
            listing :: map (delete_of accountId) l ++ [command x]).
  { intros l x. cbn [map command]. rewrite map_app, commands_deleted. reflexivity. }
  destruct Hcases as [(w1 & Ho) | [(w1 & e0 & Ho) | (w1 & i0 & ap & e0 & Hi0 & Ho)]];
    rewrite Ho; cbn [result trace final]; (split; [| split]).
  - (* all succeeded: the three ways *)
    left. eexists. split; [reflexivity |].
    split; [apply Hcommands |]. split; [| apply Hcount; reflexivity].
    cbn [tl]. intros s Hs. apply in_app_or in Hs as [Hs | [<- | []]];
      [eapply deleted_answers, Hs | reflexivity].
  - (* all succeeded: what success means *)
    intros r Hr. injection Hr as <-. cbn [Result.success Result.message].
    split; [apply Hcommands |]. split; [apply Hcount; reflexivity |].
    split; [| split; [reflexivity |]].
    + cbn [tl]. intros s Hs. apply in_app_or in Hs as [Hs | [<- | []]];
        [eapply deleted_answers, Hs | reflexivity].
    + intros Hpos. apply Nat.ltb_lt in Hpos. rewrite Hpos. reflexivity.
  - intros i s e Hn Hc Hf. cbn [nth_error] in Hn.
    destruct (failed_delete_is_last _ _ _ _ _ _ Hn Hf) as [_ ->]. discriminate Hc.
  - (* the delete of the bucket is refused *)
    right; left. exists e0. split; [reflexivity |].
    split; [apply Hcommands |]. split; [| apply Hcount; reflexivity].
    right. apply in_or_app. right. left. reflexivity.
  - intros r Hr. discriminate Hr.
  - intros i s e Hn Hc Hf. cbn [nth_error] in Hn.
    destruct (failed_delete_is_last _ _ _ _ _ _ Hn Hf) as [_ ->]. discriminate Hc.
  - (* the delete of an access point fails *)
    right; right. exists i0, ap, e0.
    destruct (firstn_snoc _ _ _ Hi0) as [Hsnoc Hlen].
    split; [exact Hi0 |]. split.
    + cbn [nth_error]. rewrite nth_error_app2 by (rewrite length_map; lia).
      rewrite length_map, Hlen, Nat.sub_diag. reflexivity.
    + rewrite Hcommands, Hsnoc, map_app. reflexivity.
  - intros r Hr. discriminate Hr.
  - intros i s e Hn Hc Hf. cbn [nth_error] in Hn.
    destruct (firstn_snoc _ _ _ Hi0) as [Hsnoc Hlen].
    destruct (failed_delete_is_last _ _ _ _ _ _ Hn Hf) as [Hi ->].
    rewrite Hlen in Hi. subst i0. cbn [failed failure] in Hf. injection Hf as ->.
    exists ap. split; [exact Hi0 |].
    split; [rewrite Hcommands, Hsnoc, map_app; reflexivity |].
    split; [rewrite Hcount by reflexivity; exact Hlen |].
    split; [| reflexivity].
    cbn [existsb command is_DeleteBucket listing orb].
    rewrite existsb_app, no_DeleteBucket_deleted. reflexivity.
Qed.

End ForcedDelete.

Section ForcedDeleteMessage.
Context {E : Environment}.

(** C8, amended: when forced delete succeeds, its message states the
    number of access points removed if there was at least one, and is the
    plain message, with no number, if there was none. *)
Theorem deleteBucketWithAccessPoints_success_message
  (bucketName accountId : jsstring) (w : World) (aps : list AccessPoint)
  (r : Result.t) :
  result (listAccessPoints bucketName accountId w) = Normal aps ->
  result (deleteBucketWithAccessPoints bucketName accountId w) = Normal r ->
  Result.success r = true /\
  cleared (trace (deleteBucketWithAccessPoints bucketName accountId w)) = length aps /\
  Result.message r =
    match aps with
    | [] => lit "Bucket deleted successfully"
    | _ :: _ => lit "Bucket deleted successfully after removing " ++
                toString (length aps) ++ lit " access point(s)"
    end.
Proof.
  intros Haps Hr.
  destruct (forced_delete_cases bucketName accountId w) as (aps' & f & Haps' & Hcases).
  rewrite Haps in Haps'. injection Haps' as <-. cbv zeta in Hcases.
  destruct Hcases as [(w1 & Ho) | [(w1 & e0 & Ho) | (w1 & i0 & ap & e0 & _ & Ho)]];
    rewrite Ho in Hr |- *; cbn [result trace] in *; try discriminate Hr.
  injection Hr as <-. split; [reflexivity |]. split.
  - change (cleared ([{| command := S3Control (ListAccessPointsCommand accountId bucketName);
                         failure := f |}] ++
                     map (fun ap => ok (delete_of accountId ap)) aps ++
                     [ok (S3 (DeleteBucketCommand bucketName))]) = length aps).
    rewrite !cleared_app, cleared_deleted. cbn. lia.
  - destruct aps; reflexivity.
Qed.

End ForcedDeleteMessage.

(** The scenario of the specification: forced delete of "demo2", with
    access points ap1 and ap2, reports "2 access point(s)". *)
Lemma deleteBucketWithAccessPoints_demo2 :
  result (@deleteBucketWithAccessPoints Scenario.configured
            (lit "demo2") Scenario.account Scenario.demo2) =
    Normal {| Result.success := true;
              Result.message := lit "Bucket deleted successfully after removing 2 access point(s)" |} /\
  cleared (trace (@deleteBucketWithAccessPoints Scenario.configured
                    (lit "demo2") Scenario.account Scenario.demo2)) = 2%nat /\
  includes (lit "Bucket deleted successfully after removing 2 access point(s)")
           (lit "2 access point(s)") = true.
Proof.
  destruct (@deleteBucketWithAccessPoints_success_message Scenario.configured
              (lit "demo2") Scenario.account Scenario.demo2
              (Scenario.access_points "demo2" ["ap1"; "ap2"]%string)
              {| Result.success := true;
                 Result.message := lit "Bucket deleted successfully after removing 2 access point(s)" |}
              eq_refl eq_refl) as (_ & Hcleared & _).
  split; [reflexivity | split; [exact Hcleared | reflexivity]].
Defined.

(** C8, as stated, fails on "bare" (no access point): forced delete
    succeeds and its message states no number at all, so not 0 either. *)
Lemma deleteBucketWithAccessPoints_bare_states_no_count :
  result (@deleteBucketWithAccessPoints Scenario.configured
            (lit "bare") Scenario.account Scenario.bare) =
    Normal {| Result.success := true;
              Result.message := lit "Bucket deleted successfully" |} /\
  includes (lit "Bucket deleted successfully") (toString 0) = false /\
  existsb is_digit (lit "Bucket deleted successfully") = false.
Proof. repeat split. Qed.

(** The three ways on the simulated provider. On "demo2" both access
    points and then the bucket are deleted; on "demo3" the delete of ap2,
    the second access point, is refused. *)
Lemma deleteBucketWithAccessPoints_fail_stop_demo2_demo3 :
  (map command (trace (@deleteBucketWithAccessPoints Scenario.configured
                         (lit "demo2") Scenario.account Scenario.demo2)) =
     S3Control (ListAccessPointsCommand Scenario.account (lit "demo2")) ::
     map (delete_of Scenario.account)
         (Scenario.access_points "demo2" ["ap1"; "ap2"]%string) ++
     [ S3 (DeleteBucketCommand (lit "demo2")) ] /\
   cleared (trace (@deleteBucketWithAccessPoints Scenario.configured
                     (lit "demo2") Scenario.account Scenario.demo2)) = 2%nat /\
   Result.message
     {| Result.success := true;
        Result.message := lit "Bucket deleted successfully after removing 2 access point(s)" |} =
     lit "Bucket deleted successfully after removing " ++ toString 2 ++
     lit " access point(s)") /\
  exists ap,
    nth_error (Scenario.access_points "demo3" ["ap1"; "ap2"; "ap3"]%string) 1 = Some ap /\
    map command (trace (@deleteBucketWithAccessPoints Scenario.configured
                          (lit "demo3") Scenario.account Scenario.demo3)) =
      S3Control (ListAccessPointsCommand Scenario.account (lit "demo3")) ::
      map (delete_of Scenario.account)
          (firstn 2 (Scenario.access_points "demo3" ["ap1"; "ap2"; "ap3"]%string)) /\
    cleared (trace (@deleteBucketWithAccessPoints Scenario.configured
                      (lit "demo3") Scenario.account Scenario.demo3)) = 1%nat /\
    existsb (fun s => is_DeleteBucket (command s))
      (trace (@deleteBucketWithAccessPoints Scenario.configured
                (lit "demo3") Scenario.account Scenario.demo3)) = false /\
    result (@deleteBucketWithAccessPoints Scenario.configured
              (lit "demo3") Scenario.account Scenario.demo3) =
      Throw (Error (lit "Failed to delete bucket with access points: Failed to delete access point " ++
                    Name ap ++ lit ": " ++ message Sim.AccessDenied)).
Proof.
  split.
  - destruct (proj1 (proj2 (@deleteBucketWithAccessPoints_fail_stop Scenario.configured
                       (lit "demo2") Scenario.account Scenario.demo2
                       (Scenario.access_points "demo2" ["ap1"; "ap2"]%string)
                       eq_refl))
                {| Result.success := true;
                   Result.message := lit "Bucket deleted successfully after removing 2 access point(s)" |}
                eq_refl) as (Hcommands & Hcleared & _ & _ & Hmessage).
    split; [exact Hcommands | split; [exact Hcleared | apply Hmessage; cbn; lia]].
  - exact (proj2 (proj2 (@deleteBucketWithAccessPoints_fail_stop Scenario.configured
                    (lit "demo3") Scenario.account Scenario.demo3
                    (Scenario.access_points "demo3" ["ap1"; "ap2"; "ap3"]%string)
                    eq_refl))
             1%nat
             (failed (S3Control (DeleteAccessPointCommand Scenario.account (lit "ap2")))
                     Sim.AccessDenied)
             Sim.AccessDenied eq_refl eq_refl eq_refl).
Defined.

(** On "demo2" the run is the first of the three ways, on "demo3" the
    third. *)
Example deleteBucketWithAccessPoints_ways :
  (exists r, result (@deleteBucketWithAccessPoints Scenario.configured
                       (lit "demo2") Scenario.account Scenario.demo2) = Normal r) /\
  nth_error (trace (@deleteBucketWithAccessPoints Scenario.configured
                      (lit "demo3") Scenario.account Scenario.demo3)) 2 =
    Some (failed (S3Control (DeleteAccessPointCommand Scenario.account (lit "ap2")))
                 Sim.AccessDenied).
Proof. split; [eexists |]; reflexivity. Qed.

(** After that failure the bucket is still there, with the access point
    that could not be deleted and the one after it. *)
Example deleteBucketWithAccessPoints_demo3_state :
  final (@deleteBucketWithAccessPoints Scenario.configured
           (lit "demo3") Scenario.account Scenario.demo3) = Scenario.demo4.
Proof. reflexivity. Qed.

(** C1, as stated, fails on "demo3": one access point was cleared before
    the failure, and the failure message does not state that count; the
    same message comes out of "demo4", where none was cleared. *)
Lemma deleteBucketWithAccessPoints_failure_states_no_count :
  result (@deleteBucketWithAccessPoints Scenario.configured
            (lit "demo3") Scenario.account Scenario.demo3) =
    Throw (Error (lit "Failed to delete bucket with access points: Failed to delete access point ap2: Access Denied")) /\
  cleared (trace (@deleteBucketWithAccessPoints Scenario.configured
                    (lit "demo3") Scenario.account Scenario.demo3)) = 1%nat /\
  includes (lit "Failed to delete bucket with access points: Failed to delete access point ap2: Access Denied")
           (toString 1) = false /\
  result (@deleteBucketWithAccessPoints Scenario.configured
            (lit "demo3") Scenario.account Scenario.demo4) =
    Throw (Error (lit "Failed to delete bucket with access points: Failed to delete access point ap2: Access Denied")) /\
  cleared (trace (@deleteBucketWithAccessPoints Scenario.configured
                    (lit "demo3") Scenario.account Scenario.demo4)) = 0%nat.
Proof. repeat split. Qed.

(** ** The size helper *)

Section SizeHelper.
Context {E : Environment}.

(** One call of listFiles: one listing without a continuation token,
    whose answer is passed on or whose error is wrapped. *)
Lemma listFiles_run (bucketName prefix : jsstring) (maxKeys : nat) (w : World) :
  let c := ListObjectsV2Command bucketName (Some prefix) (Some maxKeys) None in
  (exists out w1,
     s3Client c w = (Normal out, w1) /\
     listFiles bucketName prefix maxKeys w =
     {| result :=
          Normal {| files := map (fun object => {| key := Key object; size := Size object |})
                                 (or_empty (Contents out));
                    isTruncated := IsTruncated out;
                    nextContinuationToken := NextContinuationToken out;
                    totalCount := KeyCount out |};
        final := w1; trace := [ ok (S3 c) ] |}) \/
  (exists e w1,
     s3Client c w = (Throw e, w1) /\
     listFiles bucketName prefix maxKeys w =
     {| result := Throw (Error (lit "Failed to list files: " ++ message e));
        final := w1; trace := [ failed (S3 c) e ] |}).
Proof.
  intros c. unfold listFiles.
  destruct (s3Client c w) as [[out|e] w1] eqn:Hs; [left | right].
  - exists out, w1. split; [reflexivity |].
    erewrite run_try_normal; [reflexivity |].
    erewrite run_bind_normal by (apply run_s3Client_send, Hs). reflexivity.
  - exists e, w1. split; [reflexivity |].
    erewrite run_try_throw; cycle 1.
    { erewrite run_bind_throw by (apply run_s3Client_send, Hs). reflexivity. }
    reflexivity.
Qed.

(** Every command the helper sends is the same listing: the first page
    of the bucket, with no continuation token. *)
Lemma calculateBucketSize_sends_one_request (fuel : nat)
  (bucketName : jsstring) (w : World) :
  Forall (fun s => command s =
                   S3 (ListObjectsV2Command bucketName (Some empty) (Some 1000%nat) None))
         (trace (calculateBucketSize fuel bucketName w)).
Proof.
  assert (Hloop : forall fuel acc w,
    Forall (fun s => command s =
                     S3 (ListObjectsV2Command bucketName (Some empty) (Some 1000%nat) None))
           (trace (calculateBucketSize_loop fuel bucketName acc w))).
  { clear fuel w. induction fuel as [|fuel IH]; intros acc w; cbn [calculateBucketSize_loop].
    - constructor.
    - destruct (listFiles_run bucketName empty 1000 w)
        as [(out & w1 & _ & Hl) | (e & w1 & _ & Hl)].
      + erewrite run_bind_normal by exact Hl. cbn [nextContinuationToken].
        destruct (truthy (NextContinuationToken out)).
        * constructor; [reflexivity | apply IH].
        * repeat constructor.
      + erewrite run_bind_throw by exact Hl. repeat constructor. }
  unfold calculateBucketSize, try_catch. specialize (Hloop fuel (Finite 0) w).
  destruct (result (calculateBucketSize_loop fuel bucketName (Finite 0) w));
    [exact Hloop |].
  cbn. rewrite app_nil_r. exact Hloop.
Qed.

(** When the first page fails, the helper returns 0. *)
Lemma calculateBucketSize_failure_is_zero (fuel : nat) (bucketName : jsstring)
  (w w1 : World) (e : JsError) :
  s3Client (ListObjectsV2Command bucketName (Some empty) (Some 1000%nat) None) w =
    (Throw e, w1) ->
  result (calculateBucketSize (S fuel) bucketName w) = Normal (Some (Finite 0)).
Proof.
  intros H. unfold calculateBucketSize. cbn [calculateBucketSize_loop].
  destruct (listFiles_run bucketName empty 1000 w)
    as [(out & w2 & Hs & _) | (e' & w2 & _ & Hl)]; [congruence |].
  erewrite run_try_throw by (erewrite run_bind_throw by exact Hl; reflexivity).
  reflexivity.
Qed.

(** An integer below 2^53 is a double. *)
Lemma round_to_double_small (n : N) :
  n < 2 ^ 53 -> round_to_double n = Finite n.
Proof.
  intros Hn.
  assert (Hsize : N.size n <= 53).
  { destruct (N.eq_dec n 0) as [-> | Hne]; [cbn; lia |].
    rewrite N.size_log2 by exact Hne.
    apply N.log2_lt_pow2 in Hn; lia. }
  unfold round_to_double.
  apply N.leb_le in Hsize as Hle. rewrite Hle.
  assert (Hbig : (N.size n <=? 1024) = true) by (apply N.leb_le; lia).
  rewrite Hbig. reflexivity.
Qed.

Lemma sum_of_sizes_ge (l : list S3Object) (n : N) :
  n <= fold_left (fun sum o => sum + Size o) l n.
Proof.
  revert n. induction l as [|o l IH]; intros n; cbn [fold_left]; [lia |].
  specialize (IH (n + Size o)). lia.
Qed.

(** Below 2^53 the sum the code computes over a page is the exact sum. *)
Lemma fold_left_sizes (l : list S3Object) (n : N) :
  fold_left (fun sum o => sum + Size o) l n < 2 ^ 53 ->
  fold_left (fun sum file => js_add sum (number_of_size (size file)))
    (map (fun object => {| key := Key object; size := Size object |}) l)
    (Finite n) =
  Finite (fold_left (fun sum o => sum + Size o) l n).
Proof.
  revert n. induction l as [|o l IH]; intros n Hsum; [reflexivity |].
  cbn [fold_left map size] in *.
  pose proof (sum_of_sizes_ge l (n + Size o)) as Hge.
  unfold number_of_size. rewrite (round_to_double_small (Size o)) by lia.
  cbn [js_add]. rewrite round_to_double_small by lia.
  apply IH, Hsum.
Qed.

(** When the first page is the whole bucket (no token comes back) and
    its sizes add up to less than 2^53, the helper returns their sum. *)
Lemma calculateBucketSize_one_page (fuel : nat) (bucketName : jsstring)
  (w w1 : World) (out : ListObjectsV2Output) :
  s3Client (ListObjectsV2Command bucketName (Some empty) (Some 1000%nat) None) w =
    (Normal out, w1) ->
  truthy (NextContinuationToken out) = false ->
  fold_left (fun sum o => sum + Size o) (or_empty (Contents out)) 0 < 2 ^ 53 ->
  result (calculateBucketSize (S fuel) bucketName w) =
    Normal (Some (Finite (fold_left (fun sum o => sum + Size o)
                                    (or_empty (Contents out)) 0))).
Proof.
  intros H Htok Hsum. unfold calculateBucketSize. cbn [calculateBucketSize_loop].
  destruct (listFiles_run bucketName empty 1000 w)
    as [(out' & w2 & Hs & Hl) | (e' & w2 & Hs & _)]; [| congruence].
  rewrite H in Hs. injection Hs as <- <-.
  erewrite run_try_normal; cycle 1.
  { erewrite run_bind_normal by exact Hl. cbn [nextContinuationToken files].
    rewrite Htok. reflexivity. }
  cbn [result]. rewrite fold_left_sizes by exact Hsum.
  cbn [js_add]. rewrite N.add_0_l, round_to_double_small by exact Hsum.
  reflexivity.
Qed.

End SizeHelper.

Lemma listFiles_big :
  @listFiles Scenario.configured (lit "big") empty 1000 Scenario.big =
  @Outcome.Build_t Scenario.configured _
    (Normal Scenario.big_first_page) Scenario.big [ ok Scenario.big_listing ].
Proof. vm_compute. reflexivity. Qed.

Lemma calculateBucketSize_loop_big (fuel : nat) (acc : number) :
  @calculateBucketSize_loop Scenario.configured fuel (lit "big") acc Scenario.big =
  @Outcome.Build_t Scenario.configured _
    (Normal None) Scenario.big (repeat (ok Scenario.big_listing) fuel).
Proof.
  revert acc. induction fuel as [|fuel IH]; intros acc.
  - reflexivity.
  - cbn [calculateBucketSize_loop].
    erewrite run_bind_normal by exact listFiles_big.
    change (truthy (nextContinuationToken Scenario.big_first_page)) with true.
    cbv iota. rewrite IH. reflexivity.
Qed.

(** C4 on a bucket of 1001 items, one more than a page holds: the helper
    asks for the first page again and again, never with a continuation
    token, and whatever the number of iterations allowed it has not
    returned; the sum of all sizes, 1001, is never produced. *)
Theorem calculateBucketSize_big_never_returns (fuel : nat) :
  result (@calculateBucketSize Scenario.configured fuel (lit "big") Scenario.big) =
    Normal None /\
  trace (@calculateBucketSize Scenario.configured fuel (lit "big") Scenario.big) =
    repeat (ok Scenario.big_listing) fuel /\
  continuation_token Scenario.big_listing = None /\
  fold_left (fun sum o => sum + Size o) (Sim.numbered 1001) 0 = 1001.
Proof.
  unfold calculateBucketSize.
  erewrite run_try_normal by apply calculateBucketSize_loop_big.
  repeat split. 
Qed.

(** ** The request boundary *)

Lemma bucketNameSchema_spec (name : jsstring) :
  validate bucketNameSchema name = None <->
  (3 <= length name <= 63)%nat /\ forall c, In c name -> in_class c.
Proof.
  unfold validate. destruct name as [|a name].
  - split; [discriminate | cbn; lia].
  - cbn [min max pattern bucketNameSchema].
    destruct (length (a :: name) <? 3)%nat eqn:Hmin.
    { apply Nat.ltb_lt in Hmin. split; [discriminate | lia]. }
    destruct (63 <? length (a :: name))%nat eqn:Hmax.
    { apply Nat.ltb_lt in Hmax. split; [discriminate | lia]. }
    apply Nat.ltb_ge in Hmin, Hmax.
    destruct (bucket_regex_test (a :: name)) eqn:Hre; cbn [negb].
    + apply bucket_regex_test_spec in Hre as [_ Hre].
      split; [intros _; split; [lia | exact Hre] | reflexivity].
    + split; [discriminate |]. intros [_ Hcls].
      assert (bucket_regex_test (a :: name) = true) as Hok
        by (apply bucket_regex_test_spec; split; [discriminate | exact Hcls]).
      congruence.
Qed.

Section Boundary.
Context {E : Environment}.

Lemma first_command_bind {A B} (m : M A) (k : A -> M B) (w : World) (c : Command) :
  first_command (m w) c -> first_command (bind m k w) c.
Proof.
  intros (f & rest & Ht). unfold bind, first_command.
  destruct (result (m w)); cbn [trace after_trace]; rewrite Ht; cbn; eauto.
Qed.

Lemma first_command_try {A} (body : M A) (h : JsError -> M A) (w : World)
  (c : Command) :
  first_command (body w) c -> first_command (try_catch body h w) c.
Proof.
  intros (f & rest & Ht). unfold try_catch, first_command.
  destruct (result (body w)); cbn [trace after_trace]; rewrite Ht; cbn; eauto.
Qed.

Lemma first_command_s3Client_send (c : S3Command) (w : World) :
  first_command (s3Client_send c w) (S3 c).
Proof.
  unfold first_command, s3Client_send. destruct (s3Client c w). cbn. eauto.
Qed.

Lemma deleteBucket_first_command (bucketName : jsstring) (w : World) :
  first_command (deleteBucket bucketName w)
    (S3 (ListObjectsV2Command bucketName None None None)).
Proof.
  unfold deleteBucket.
  apply first_command_try, first_command_bind, first_command_s3Client_send.
Qed.

Lemma deleteBucketWithAccessPoints_first_command
  (bucketName accountId : jsstring) (w : World) :
  first_command (deleteBucketWithAccessPoints bucketName accountId w)
    (S3Control (ListAccessPointsCommand accountId bucketName)).
Proof.
  unfold deleteBucketWithAccessPoints.
  apply first_command_try, first_command_bind.
  destruct (listAccessPoints_run bucketName accountId w) as (aps & w1 & f & ->).
  exists f, []. reflexivity.
Qed.

Lemma listFiles_first_command (bucketName prefix : jsstring) (maxKeys : nat)
  (w : World) :
  first_command (listFiles bucketName prefix maxKeys w)
    (S3 (ListObjectsV2Command bucketName (Some prefix) (Some maxKeys) None)).
Proof.
  unfold listFiles.
  apply first_command_try, first_command_bind, first_command_s3Client_send.
Qed.

(** A name the validator rejects never reaches the provider through
    createBucket. *)
Lemma createBucket_rejects (bucketName region : jsstring) (w : World)
  (e : JsError) :
  validateBucketName bucketName = Throw e ->
  createBucket bucketName region w =
  {| result := Throw (Error (lit "Failed to create bucket: " ++ message e));
     final := w; trace := [] |}.
Proof.
  intros H. destruct (validateBucketName_throw _ _ H) as (r & _ & _ & ->).
  unfold createBucket, try_catch, bind, call. rewrite H. reflexivity.
Qed.

(** C9: the check at the boundary of the delete, force-delete and
    get-bucket routes accepts a name exactly when its length is in [3,63]
    and its characters are in the class. A name it accepts reaches the
    provider: the first command of each route carries it. A name it
    refuses is answered with 400 and reaches no provider. The dot rules
    are those of the validator, which createBucket runs before sending
    anything. "my..bucket" passes the boundary and fails the validator. *)
Theorem boundary_checks_length_and_class_only (name : jsstring) (w : World) :
  (validate bucketNameSchema name = None <->
   (3 <= length name <= 63)%nat /\ forall c, In c name -> in_class c) /\
  (validate bucketNameSchema name = None ->
   first_command (route_DELETE_bucket name w)
     (S3 (ListObjectsV2Command name None None None)) /\
   (forall c accountId, AWS_ACCOUNT_ID = Some (c :: accountId) ->
      first_command (route_DELETE_bucket_force name w)
        (S3Control (ListAccessPointsCommand (c :: accountId) name))) /\
   (forall fuel,
      first_command (route_GET_bucket fuel name w)
        (S3 (ListObjectsV2Command name (Some empty) (Some 1%nat) None)))) /\
  (validate bucketNameSchema name <> None ->
   route_DELETE_bucket name w =
     {| result := Normal (reply 400 false (lit "Invalid bucket name"));
        final := w; trace := [] |} /\
   (forall c accountId, AWS_ACCOUNT_ID = Some (c :: accountId) ->
      route_DELETE_bucket_force name w =
        {| result := Normal (reply 400 false (lit "Invalid bucket name"));
           final := w; trace := [] |}) /\
   (forall fuel,
      route_GET_bucket fuel name w =
        {| result := Normal (Some (reply 400 false (lit "Invalid bucket name")));
           final := w; trace := [] |})) /\
  (forall region e,
     validateBucketName name = Throw e ->
     result (createBucket name region w) =
       Throw (Error (lit "Failed to create bucket: " ++ message e)) /\
     trace (createBucket name region w) = []) /\
  validate bucketNameSchema (lit "my..bucket") = None /\
  validateBucketName (lit "my..bucket") = Throw (Error msg_double_dot).
Proof.
  split; [apply bucketNameSchema_spec |].
  split; [| split; [| split; [| split; reflexivity]]].
  - intros Hok. split; [| split].
    + unfold route_DELETE_bucket. rewrite Hok.
      apply first_command_try, first_command_bind, deleteBucket_first_command.
    + intros c accountId Hacc. unfold route_DELETE_bucket_force. rewrite Hacc, Hok.
      apply first_command_try, first_command_bind,
        deleteBucketWithAccessPoints_first_command.
    + intros fuel. unfold route_GET_bucket. rewrite Hok.
      apply first_command_try, first_command_bind, listFiles_first_command.
  - intros Hbad.
    destruct (validate bucketNameSchema name) as [err|] eqn:Hv; [| contradiction].
    split; [| split].
    + unfold route_DELETE_bucket. rewrite Hv. reflexivity.
    + intros c accountId Hacc. unfold route_DELETE_bucket_force.
      rewrite Hacc, Hv. reflexivity.
    + intros fuel. unfold route_GET_bucket. rewrite Hv. reflexivity.
  - intros region e He. rewrite (createBucket_rejects _ region w _ He).
    split; reflexivity.
Qed.

(** C10: the delete-item route checks the key as it arrived and deletes
    the decoded key. When the bucket and the key pass the key schema and
    the key decodes, the one command sent deletes the decoded key,
    whether the schema accepts that or not. When the bucket or the key as
    it arrived fails the schema, the route answers 400 and sends nothing.
    The key "a%3Cb" passes and decodes to "a<b", which the schema
    rejects. *)
Theorem route_DELETE_file_checks_encoded_deletes_decoded (bucket : jsstring)
  (w : World) :
  (forall key decodedKey,
     validate fileKeySchema bucket = None ->
     validate fileKeySchema key = None ->
     decodeURIComponent key = Normal decodedKey ->
     exists answer,
       trace (route_DELETE_file bucket key w) =
       [ {| command := S3 (DeleteObjectCommand bucket decodedKey);
            failure := answer |} ]) /\
  (forall key decodedKey,
     decodeURIComponent key = Normal decodedKey ->
     validate fileKeySchema bucket <> None \/ validate fileKeySchema key <> None ->
     route_DELETE_file bucket key w =
       {| result := Normal (reply 400 false (lit "Invalid bucket name or file key"));
          final := w; trace := [] |}) /\
  validate fileKeySchema (lit "a%3Cb") = None /\
  decodeURIComponent (lit "a%3Cb") = Normal (lit "a<b") /\
  validate fileKeySchema (lit "a<b") = Some string_pattern_base.
Proof.
  split; [| split; [| repeat split]].
  - intros key decodedKey Hb Hk Hd.
    unfold route_DELETE_file. rewrite Hb, Hk, Hd.
    unfold try_catch, bind, call, deleteFile, try_catch, bind, s3Client_send.
    cbn beta iota zeta delta [result final trace after_trace].
    destruct (s3Client (DeleteObjectCommand bucket decodedKey) w) as [[[]|e] w1];
      cbn; [| destruct (says_not_found _)]; eexists; reflexivity.
  - intros key decodedKey Hd Hbad.
    unfold route_DELETE_file, try_catch, bind, call. rewrite Hd.
    cbn beta iota zeta delta [result final trace after_trace].
    destruct (validate fileKeySchema bucket), (validate fileKeySchema key);
      try reflexivity.
    destruct Hbad as [H | H]; contradiction H; reflexivity.
Qed.

End Boundary.

(** The request of the claim on the simulated provider: the key "a%3Cb"
    in "demo" is accepted and the object "a<b" is the one deleted. *)
Example route_DELETE_file_demo :
  map command (trace (@route_DELETE_file Scenario.configured
                        (lit "demo") (lit "a%3Cb") Scenario.demo)) =
    [ S3 (DeleteObjectCommand (lit "demo") (lit "a<b")) ] /\
  result (@route_DELETE_file Scenario.configured
            (lit "demo") (lit "a%3Cb") Scenario.demo) =
    Normal (reply 200 true (lit "File deleted successfully")).
Proof. split; reflexivity. Qed.

(** * Further properties of the service and the routes *)

(** ** Plain delete, path by path *)

Lemma has_elements_false {A} (x : option (list A)) :
  or_empty x = [] -> has_elements x = false.
Proof. destruct x as [[|a l]|]; cbn; congruence. Qed.

Lemma startsWith_app (p m : jsstring) : startsWith (p ++ m) p = true.
Proof. apply startsWith_spec. exists m. reflexivity. Qed.

Lemma contains_app_r (p m sub : jsstring) :
  includes m sub = true -> includes (p ++ m) sub = true.
Proof.
  rewrite !includes_spec. intros (pre & post & ->).
  exists (p ++ pre), post. rewrite <- app_assoc. reflexivity.
Qed.

Section PlainDeletePaths.
Context {E : Environment}.

(** X1: An empty bucket without access points: the listing and the delete are
    the two commands sent, the result is the success message, and the
    route answers 200 with it. *)
Theorem deleteBucket_deletes_empty_bucket (bucketName : jsstring)
  (w w1 w2 : World) (out : ListObjectsV2Output) :
  s3Client (ListObjectsV2Command bucketName None None None) w = (Normal out, w1) ->
  or_empty (Contents out) = [] ->
  s3Client (DeleteBucketCommand bucketName) w1 = (Normal tt, w2) ->
  deleteBucket bucketName w =
    {| result := Normal {| Result.success := true;
                           Result.message := lit "Bucket deleted successfully" |};
       final := w2;
       trace := [ ok (S3 (ListObjectsV2Command bucketName None None None));
                  ok (S3 (DeleteBucketCommand bucketName)) ] |} /\
  (validate bucketNameSchema bucketName = None ->
   result (route_DELETE_bucket bucketName w) =
     Normal (reply 200 true (lit "Bucket deleted successfully"))).
Proof.
  intros Hlist Hempty Hdel. apply has_elements_false in Hempty.
  assert (Hrun : deleteBucket bucketName w =
    {| result := Normal {| Result.success := true;
                           Result.message := lit "Bucket deleted successfully" |};
       final := w2;
       trace := [ ok (S3 (ListObjectsV2Command bucketName None None None));
                  ok (S3 (DeleteBucketCommand bucketName)) ] |}).
  { unfold deleteBucket. erewrite run_try_normal; [reflexivity |].
    erewrite run_bind_normal by (apply run_s3Client_send, Hlist).
    cbn beta. rewrite Hempty.
    erewrite run_try_normal; [reflexivity |].
    erewrite run_bind_normal by (apply run_s3Client_send, Hdel). reflexivity. }
  split; [exact Hrun |].
  intros Hok. unfold route_DELETE_bucket. rewrite Hok.
  erewrite run_try_normal; [reflexivity |].
  erewrite run_bind_normal by exact Hrun. reflexivity.
Qed.

(** X2: The listing fails: the error is passed on under the prefix of the
    operation, nothing else is sent, and when the provider's message says
    that the bucket does not exist the route answers 404. *)
Theorem deleteBucket_listing_failure (bucketName : jsstring) (w w1 : World)
  (e : JsError) :
  s3Client (ListObjectsV2Command bucketName None None None) w = (Throw e, w1) ->
  deleteBucket bucketName w =
    {| result := Throw (Error (lit "Failed to delete bucket: " ++ message e));
       final := w1;
       trace := [ failed (S3 (ListObjectsV2Command bucketName None None None)) e ] |} /\
  (validate bucketNameSchema bucketName = None ->
   includes (message e) (lit "contains objects") = false ->
   says_not_found e = true ->
   route_DELETE_bucket bucketName w =
     {| result := Normal (reply 404 false (lit "Bucket not found"));
        final := w1;
        trace := [ failed (S3 (ListObjectsV2Command bucketName None None None)) e ] |}).
Proof.
  intros Hlist.
  assert (Hrun : deleteBucket bucketName w =
    {| result := Throw (Error (lit "Failed to delete bucket: " ++ message e));
       final := w1;
       trace := [ failed (S3 (ListObjectsV2Command bucketName None None None)) e ] |}).
  { unfold deleteBucket. erewrite run_try_throw; cycle 1.
    { erewrite run_bind_throw by (apply run_s3Client_send, Hlist). reflexivity. }
    reflexivity. }
  split; [exact Hrun |].
  intros Hok Hobj Hnf. unfold route_DELETE_bucket. rewrite Hok.
  erewrite run_try_throw by (erewrite run_bind_throw by exact Hrun; reflexivity).
  change (includes (message (Error (lit "Failed to delete bucket: " ++ message e)))
                   (lit "contains objects"))
    with (includes (message e) (lit "contains objects")).
  rewrite Hobj.
  change (says_not_found (Error (lit "Failed to delete bucket: " ++ message e)))
    with (says_not_found e).
  rewrite Hnf. reflexivity.
Qed.

(** X3: The provider refuses the delete for a reason other than attached
    access points: its message is passed on under the prefix, and neither
    the environment nor the access points are looked at. *)
Theorem deleteBucket_refused (bucketName : jsstring) (w w1 w2 : World)
  (out : ListObjectsV2Output) (e : JsError) :
  s3Client (ListObjectsV2Command bucketName None None None) w = (Normal out, w1) ->
  or_empty (Contents out) = [] ->
  s3Client (DeleteBucketCommand bucketName) w1 = (Throw e, w2) ->
  includes (message e) (lit "access points attached") = false ->
  deleteBucket bucketName w =
    {| result := Throw (Error (lit "Failed to delete bucket: " ++ message e));
       final := w2;
       trace := [ ok (S3 (ListObjectsV2Command bucketName None None None));
                  failed (S3 (DeleteBucketCommand bucketName)) e ] |}.
Proof.
  intros Hlist Hempty Hdel Hmsg. apply has_elements_false in Hempty.
  unfold deleteBucket. erewrite run_try_throw; cycle 1.
  { erewrite run_bind_normal by (apply run_s3Client_send, Hlist).
    cbn beta. rewrite Hempty.
    erewrite run_try_throw; cycle 1.
    { erewrite run_bind_throw by (apply run_s3Client_send, Hdel). reflexivity. }
    cbn beta. rewrite Hmsg, andb_false_r. reflexivity. }
  reflexivity.
Qed.

(** A message that names attached access points is not empty. *)
Lemma attached_message_truthy (m : jsstring) :
  includes m (lit "access points attached") = true ->
  truthy (Some m) && includes m (lit "access points attached") = true.
Proof. intros H. rewrite H. destruct m; [discriminate H | reflexivity]. Qed.

(** X4: Access points block the delete and no account identifier is
    configured: the error tells to set it, wrapped twice on its way out,
    and the control client is never called. *)
Theorem deleteBucket_blocked_without_account (bucketName : jsstring)
  (w w1 w2 : World) (out : ListObjectsV2Output) (e : JsError) :
  s3Client (ListObjectsV2Command bucketName None None None) w = (Normal out, w1) ->
  or_empty (Contents out) = [] ->
  s3Client (DeleteBucketCommand bucketName) w1 = (Throw e, w2) ->
  includes (message e) (lit "access points attached") = true ->
  truthy AWS_ACCOUNT_ID = false ->
  deleteBucket bucketName w =
    {| result :=
         Throw (Error (lit "Failed to delete bucket: Failed to check access points: " ++
                       msg_no_account));
       final := w2;
       trace := [ ok (S3 (ListObjectsV2Command bucketName None None None));
                  failed (S3 (DeleteBucketCommand bucketName)) e ] |}.
Proof.
  intros Hlist Hempty Hdel Hmsg Hacc. apply has_elements_false in Hempty.
  apply attached_message_truthy in Hmsg.
  unfold deleteBucket. erewrite run_try_throw; cycle 1.
  { erewrite run_bind_normal by (apply run_s3Client_send, Hlist).
    cbn beta. rewrite Hempty.
    erewrite run_try_throw; cycle 1.
    { erewrite run_bind_throw by (apply run_s3Client_send, Hdel). reflexivity. }
    cbn beta. rewrite Hmsg.
    destruct AWS_ACCOUNT_ID as [[|c accountId]|]; try discriminate Hacc; reflexivity. }
  reflexivity.
Qed.

(** X5: Access points block the delete but the listing of access points
    returns none, or fails, which the listing turns into none: the
    provider's own error is passed on under the prefix. *)
Theorem deleteBucket_blocked_none_listed (bucketName : jsstring)
  (w w1 w2 : World) (out : ListObjectsV2Output) (e : JsError)
  (c : N) (accountId : jsstring) :
  s3Client (ListObjectsV2Command bucketName None None None) w = (Normal out, w1) ->
  or_empty (Contents out) = [] ->
  s3Client (DeleteBucketCommand bucketName) w1 = (Throw e, w2) ->
  includes (message e) (lit "access points attached") = true ->
  AWS_ACCOUNT_ID = Some (c :: accountId) ->
  result (listAccessPoints bucketName (c :: accountId) w2) = Normal [] ->
  exists answer,
    deleteBucket bucketName w =
      {| result := Throw (Error (lit "Failed to delete bucket: " ++ message e));
         final := final (listAccessPoints bucketName (c :: accountId) w2);
         trace := [ ok (S3 (ListObjectsV2Command bucketName None None None));
                    failed (S3 (DeleteBucketCommand bucketName)) e;
                    {| command := S3Control (ListAccessPointsCommand (c :: accountId) bucketName);
                       failure := answer |} ] |}.
Proof.
  intros Hlist Hempty Hdel Hmsg Hacc Haps. apply has_elements_false in Hempty.
  apply attached_message_truthy in Hmsg.
  destruct (listAccessPoints_run bucketName (c :: accountId) w2)
    as (aps & w3 & f & Hl).
  rewrite Hl in Haps |- *. cbn [result final] in *. injection Haps as ->.
  exists f. unfold deleteBucket. erewrite run_try_throw; cycle 1.
  { erewrite run_bind_normal by (apply run_s3Client_send, Hlist).
    cbn beta. rewrite Hempty.
    erewrite run_try_throw; cycle 1.
    { erewrite run_bind_throw by (apply run_s3Client_send, Hdel). reflexivity. }
    cbn beta. rewrite Hmsg, Hacc.
    erewrite run_bind_normal; cycle 1.
    { erewrite run_try_normal; [reflexivity |].
      erewrite run_bind_normal by exact Hl. reflexivity. }
    reflexivity. }
  reflexivity.
Qed.

(** X6: Access points block the delete and the listing returns them: the
    error states their number and enumerates their names, separated by
    comma and space, and after the listing nothing more is sent. *)
Theorem deleteBucket_blocked_names_access_points (bucketName : jsstring)
  (w w1 w2 : World) (out : ListObjectsV2Output) (e : JsError)
  (c : N) (accountId : jsstring) (ap : AccessPoint) (aps : list AccessPoint) :
  s3Client (ListObjectsV2Command bucketName None None None) w = (Normal out, w1) ->
  or_empty (Contents out) = [] ->
  s3Client (DeleteBucketCommand bucketName) w1 = (Throw e, w2) ->
  includes (message e) (lit "access points attached") = true ->
  AWS_ACCOUNT_ID = Some (c :: accountId) ->
  result (listAccessPoints bucketName (c :: accountId) w2) = Normal (ap :: aps) ->
  deleteBucket bucketName w =
    {| result :=
         Throw (Error (lit "Failed to delete bucket: Bucket has " ++
                       toString (length (ap :: aps)) ++
                       lit " access point(s) attached: " ++
                       join (map Name (ap :: aps)) (lit ", ") ++
                       lit ". These must be deleted before the bucket can be removed."));
       final := final (listAccessPoints bucketName (c :: accountId) w2);
       trace := [ ok (S3 (ListObjectsV2Command bucketName None None None));
                  failed (S3 (DeleteBucketCommand bucketName)) e;
                  ok (S3Control (ListAccessPointsCommand (c :: accountId) bucketName)) ] |}.
Proof.
  intros Hlist Hempty Hdel Hmsg Hacc Haps. apply has_elements_false in Hempty.
  apply attached_message_truthy in Hmsg.
  assert (Hl : listAccessPoints bucketName (c :: accountId) w2 =
               {| result := Normal (ap :: aps);
                  final := final (listAccessPoints bucketName (c :: accountId) w2);
                  trace := [ ok (S3Control (ListAccessPointsCommand (c :: accountId) bucketName)) ] |}).
  { revert Haps. unfold listAccessPoints, try_catch, bind, s3ControlClient_send.
    destruct (s3ControlClient (ListAccessPointsCommand (c :: accountId) bucketName) w2)
      as [[o|e'] w3]; cbn; [| discriminate].
    intros H. injection H as ->. reflexivity. }
  rewrite Hl at 1. cbn [final].
  unfold deleteBucket. erewrite run_try_throw; cycle 1.
  { erewrite run_bind_normal by (apply run_s3Client_send, Hlist).
    cbn beta. rewrite Hempty.
    erewrite run_try_throw; cycle 1.
    { erewrite run_bind_throw by (apply run_s3Client_send, Hdel). reflexivity. }
    cbn beta. rewrite Hmsg, Hacc.
    erewrite run_bind_throw; cycle 1.
    { erewrite run_try_throw; cycle 1.
      { erewrite run_bind_normal by exact Hl. reflexivity. }
      reflexivity. }
    reflexivity. }
  reflexivity.
Qed.

End PlainDeletePaths.

(** The paths on the simulated provider. *)

Lemma deleteBucket_deletes_empty_bucket_bare :
  @deleteBucket Scenario.configured (lit "bare") Scenario.bare =
    @Outcome.Build_t Scenario.configured _
      (Normal {| Result.success := true;
                 Result.message := lit "Bucket deleted successfully" |})
      Cases.nothing
      [ ok (S3 (ListObjectsV2Command (lit "bare") None None None));
        ok (S3 (DeleteBucketCommand (lit "bare"))) ].
Proof.
  exact (proj1 (@deleteBucket_deletes_empty_bucket Scenario.configured
                  (lit "bare") Scenario.bare Scenario.bare Cases.nothing
                  {| Contents := None; IsTruncated := Some false;
                     NextContinuationToken := None; KeyCount := Some 0%nat |}
                  eq_refl eq_refl eq_refl)).
Defined.

Lemma deleteBucket_listing_failure_ghost :
  @route_DELETE_bucket Scenario.configured (lit "ghost") Cases.nothing =
    @Outcome.Build_t Scenario.configured _
      (Normal (reply 404 false (lit "Bucket not found")))
      Cases.nothing
      [ failed (S3 (ListObjectsV2Command (lit "ghost") None None None))
               Sim.NoSuchBucket ].
Proof.
  exact (proj2 (@deleteBucket_listing_failure Scenario.configured
                  (lit "ghost") Cases.nothing Cases.nothing Sim.NoSuchBucket
                  eq_refl)
               eq_refl eq_refl eq_refl).
Defined.

Lemma deleteBucket_refused_bare :
  result (@deleteBucket Cases.without_delete_permission (lit "bare") Scenario.bare) =
    Throw (Error (lit "Failed to delete bucket: Access Denied")).
Proof.
  exact (f_equal (@result Cases.without_delete_permission _)
           (@deleteBucket_refused Cases.without_delete_permission
              (lit "bare") Scenario.bare Scenario.bare Scenario.bare
              {| Contents := None; IsTruncated := Some false;
                 NextContinuationToken := None; KeyCount := Some 0%nat |}
              Sim.AccessDenied eq_refl eq_refl eq_refl eq_refl)).
Defined.

Lemma deleteBucket_blocked_without_account_demo2 :
  @deleteBucket Cases.unconfigured (lit "demo2") Scenario.demo2 =
    @Outcome.Build_t Cases.unconfigured _
      (Throw (Error (lit "Failed to delete bucket: Failed to check access points: " ++
                     msg_no_account)))
      Scenario.demo2
      [ ok (S3 (ListObjectsV2Command (lit "demo2") None None None));
        failed (S3 (DeleteBucketCommand (lit "demo2"))) Sim.HasAccessPoints ].
Proof.
  exact (@deleteBucket_blocked_without_account Cases.unconfigured
           (lit "demo2") Scenario.demo2 Scenario.demo2 Scenario.demo2
           {| Contents := None; IsTruncated := Some false;
              NextContinuationToken := None; KeyCount := Some 0%nat |}
           Sim.HasAccessPoints eq_refl eq_refl eq_refl eq_refl eq_refl).
Defined.

Lemma deleteBucket_blocked_none_listed_demo2 :
  exists answer,
    @deleteBucket Cases.without_access_point_permissions (lit "demo2") Scenario.demo2 =
      @Outcome.Build_t Cases.without_access_point_permissions _
        (Throw (Error (lit "Failed to delete bucket: Bucket has access points attached")))
        Scenario.demo2
        [ ok (S3 (ListObjectsV2Command (lit "demo2") None None None));
          failed (S3 (DeleteBucketCommand (lit "demo2"))) Sim.HasAccessPoints;
          {| command := S3Control (ListAccessPointsCommand Scenario.account (lit "demo2"));
             failure := answer |} ].
Proof.
  exact (@deleteBucket_blocked_none_listed Cases.without_access_point_permissions
           (lit "demo2") Scenario.demo2 Scenario.demo2 Scenario.demo2
           {| Contents := None; IsTruncated := Some false;
              NextContinuationToken := None; KeyCount := Some 0%nat |}
           Sim.HasAccessPoints 49 (lit "23456789012")
           eq_refl eq_refl eq_refl eq_refl eq_refl eq_refl).
Defined.

Lemma deleteBucket_blocked_names_access_points_demo2 :
  result (@deleteBucket Scenario.configured (lit "demo2") Scenario.demo2) =
    Throw (Error (lit "Failed to delete bucket: Bucket has 2 access point(s) attached: ap1, ap2. These must be deleted before the bucket can be removed.")).
Proof.
  exact (f_equal (@result Scenario.configured _)
           (@deleteBucket_blocked_names_access_points Scenario.configured
              (lit "demo2") Scenario.demo2 Scenario.demo2 Scenario.demo2
              {| Contents := None; IsTruncated := Some false;
                 NextContinuationToken := None; KeyCount := Some 0%nat |}
              Sim.HasAccessPoints 49 (lit "23456789012")
              {| Name := lit "ap1"; Bucket := lit "demo2" |}
              [ {| Name := lit "ap2"; Bucket := lit "demo2" |} ]
              eq_refl eq_refl eq_refl eq_refl eq_refl eq_refl)).
Defined.

Section PlainDeleteNever.
Context {E : Environment}.

(** X7: Every error that leaves plain delete is a fresh Error: its name is
    "Error", it carries no code and no list of access points, and its
    message starts with the prefix of the operation. *)
Theorem deleteBucket_error_is_plain (bucketName : jsstring) (w : World)
  (e : JsError) :
  result (deleteBucket bucketName w) = Throw e ->
  name e = lit "Error" /\ code e = None /\ accessPoints e = None /\
  startsWith (message e) (lit "Failed to delete bucket: ") = true.
Proof.
  intros H. destruct (deleteBucket_throws_plain_error _ _ _ H) as [m ->].
  repeat split. apply startsWith_app.
Qed.

(** X8: The plain-delete route always answers, whatever the provider does,
    with one of five statuses, and never with a code or a list of access
    points. *)
Theorem route_DELETE_bucket_always_replies (name : jsstring) (w : World) :
  exists r,
    result (route_DELETE_bucket name w) = Normal r /\
    In (Reply.status r) [200; 400; 404; 409; 500]%nat /\
    Reply.code r = None /\ Reply.accessPoints r = None.
Proof.
  unfold route_DELETE_bucket. destruct (validate bucketNameSchema name).
  - eexists. split; [reflexivity |]. cbn. tauto.
  - unfold try_catch, bind.
    destruct (result (deleteBucket name w)) as [a|e] eqn:Hd; cbn.
    + eexists. split; [reflexivity |]. cbn. tauto.
    + destruct (deleteBucket_throws_plain_error _ _ _ Hd) as [m ->].
      destruct (includes _ _);
        [eexists; split; [reflexivity | cbn; tauto] |].
      destruct (says_not_found _);
        [eexists; split; [reflexivity | cbn; tauto] |].
      eexists. split; [reflexivity | cbn; tauto].
Qed.

(** X9: Plain delete only looks and tries: the commands it sends are listings
    of objects, the delete of the bucket and listings of access points.
    It never deletes an access point or an object. *)
Theorem deleteBucket_never_deletes_dependents (bucketName : jsstring) (w : World) :
  Forall (fun s => is_plain_delete_command (command s) = true)
         (trace (deleteBucket bucketName w)).
Proof.
  apply Forall_forall. intros s Hs.
  assert (H : sends_only is_plain_delete_command (deleteBucket bucketName)).
  { unfold deleteBucket. apply sends_only_try; [| intros; apply sends_only_throw].
    apply sends_only_bind; [apply sends_only_s3Client_send; reflexivity |].
    intros objectsResponse.
    destruct (has_elements (Contents objectsResponse)); [apply sends_only_throw |].
    apply sends_only_try.
    { apply sends_only_bind;
        [apply sends_only_s3Client_send; reflexivity | intros; apply sends_only_ret]. }
    intros error. apply sends_only_bind; [| intros; apply sends_only_throw].
    destruct (truthy (Some (message error)) && includes (message error) _);
      [| apply sends_only_ret].
    apply sends_only_try.
    - destruct AWS_ACCOUNT_ID as [[|c accountId]|]; try apply sends_only_throw.
      apply sends_only_bind.
      + unfold listAccessPoints. apply sends_only_try.
        * apply sends_only_bind;
            [apply sends_only_s3ControlClient_send; reflexivity
            | intros; apply sends_only_ret].
        * intros; apply sends_only_ret.
      + intros accessPoints.
        destruct (0 <? length accessPoints)%nat;
          [apply sends_only_throw | apply sends_only_ret].
    - intros accessPointError.
      destruct (optstring_eqb (code accessPointError) BUCKET_HAS_ACCESS_POINTS);
        apply sends_only_throw. }
  specialize (H w). rewrite forallb_forall in H. apply H, Hs.
Qed.

End PlainDeleteNever.

Lemma deleteBucket_error_is_plain_demo :
  name (Error (lit "Failed to delete bucket: Cannot delete bucket that contains objects")) =
    lit "Error" /\
  code (Error (lit "Failed to delete bucket: Cannot delete bucket that contains objects")) =
    None /\
  accessPoints (Error (lit "Failed to delete bucket: Cannot delete bucket that contains objects")) =
    None /\
  startsWith (lit "Failed to delete bucket: Cannot delete bucket that contains objects")
             (lit "Failed to delete bucket: ") = true.
Proof.
  exact (@deleteBucket_error_is_plain Scenario.configured (lit "demo") Scenario.demo
           (Error (lit "Failed to delete bucket: Cannot delete bucket that contains objects"))
           eq_refl).
Defined.

(** ** Forced delete, beyond the fail-stop *)

Section ForcedDeleteMore.
Context {E : Environment}.

Lemma sends_only_for_of {A} (P : Command -> bool) (l : list A)
  (body : A -> M unit) :
  (forall x, sends_only P (body x)) -> sends_only P (for_of l body).
Proof.
  intros Hbody. induction l as [|x l IH]; cbn [for_of].
  - apply sends_only_ret.
  - apply sends_only_bind; [apply Hbody | intros; exact IH].
Qed.

(** X10: Forced delete is not atomic: when the provider refuses the delete of
    the bucket, every access point that was listed has already been
    deleted; the error passes the provider's message on under the prefix
    of the operation. *)
Theorem deleteBucketWithAccessPoints_bucket_delete_fails_after_clearing
  (bucketName accountId : jsstring) (w : World) (aps : list AccessPoint)
  (s : Sent) (e : JsError) :
  result (listAccessPoints bucketName accountId w) = Normal aps ->
  In s (trace (deleteBucketWithAccessPoints bucketName accountId w)) ->
  command s = S3 (DeleteBucketCommand bucketName) ->
  failure s = Some e ->
  cleared (trace (deleteBucketWithAccessPoints bucketName accountId w)) = length aps /\
  map command (trace (deleteBucketWithAccessPoints bucketName accountId w)) =
    S3Control (ListAccessPointsCommand accountId bucketName) ::
    map (delete_of accountId) aps ++ [ S3 (DeleteBucketCommand bucketName) ] /\
  result (deleteBucketWithAccessPoints bucketName accountId w) =
    Throw (Error (lit "Failed to delete bucket with access points: " ++ message e)).
Proof.
  intros Haps Hin Hcmd Hfail.
  destruct (forced_delete_cases bucketName accountId w) as (aps' & f & Haps' & Hcases).
  rewrite Haps in Haps'. injection Haps' as <-. cbv zeta in Hcases.
  assert (Hnot : forall l, In s (map (fun ap => ok (delete_of accountId ap)) l) -> False).
  { intros l Hl. apply in_map_iff in Hl as (ap & <- & _). discriminate Hcmd. }
  destruct Hcases as [(w1 & Ho) | [(w1 & e0 & Ho) | (w1 & i0 & ap & e0 & _ & Ho)]];
    rewrite Ho in Hin |- *; cbn [result trace] in *.
  - exfalso. destruct Hin as [<- | Hin]; [discriminate Hcmd |].
    apply in_app_or in Hin as [Hin | [<- | []]];
      [exact (Hnot _ Hin) | discriminate Hfail].
  - destruct Hin as [<- | Hin]; [discriminate Hcmd |].
    apply in_app_or in Hin as [Hin | [<- | []]]; [destruct (Hnot _ Hin) |].
    cbn in Hfail. injection Hfail as ->.
    split; [| split; [| reflexivity]].
    + change (cleared ([{| command := S3Control (ListAccessPointsCommand accountId bucketName);
                           failure := f |}] ++
                       map (fun ap => ok (delete_of accountId ap)) aps ++
                       [failed (S3 (DeleteBucketCommand bucketName)) e]) = length aps).
      rewrite !cleared_app, cleared_deleted. cbn. lia.
    + cbn [map command]. rewrite map_app, commands_deleted. reflexivity.
  - exfalso. destruct Hin as [<- | Hin]; [discriminate Hcmd |].
    apply in_app_or in Hin as [Hin | [<- | []]];
      [exact (Hnot _ Hin) | discriminate Hcmd].
Qed.

(** X11: Forced delete makes no emptiness check: it never lists objects; all
    it sends are commands on access points and the delete of the bucket. *)
Theorem deleteBucketWithAccessPoints_never_lists_objects
  (bucketName accountId : jsstring) (w : World) :
  Forall (fun s => is_forced_delete_command (command s) = true)
         (trace (deleteBucketWithAccessPoints bucketName accountId w)).
Proof.
  apply Forall_forall. intros s Hs.
  assert (H : sends_only is_forced_delete_command
                (deleteBucketWithAccessPoints bucketName accountId)).
  { unfold deleteBucketWithAccessPoints.
    apply sends_only_try; [| intros; apply sends_only_throw].
    apply sends_only_bind.
    { unfold listAccessPoints. apply sends_only_try; [| intros; apply sends_only_ret].
      apply sends_only_bind;
        [apply sends_only_s3ControlClient_send; reflexivity
        | intros; apply sends_only_ret]. }
    intros accessPoints. apply sends_only_bind.
    { destruct (0 <? length accessPoints)%nat; [| apply sends_only_ret].
      apply sends_only_for_of. intros ap.
      apply sends_only_bind; [| intros; apply sends_only_ret].
      unfold deleteAccessPoint. apply sends_only_try; [| intros; apply sends_only_throw].
      apply sends_only_bind;
        [apply sends_only_s3ControlClient_send; reflexivity
        | intros; apply sends_only_ret]. }
    intros _. apply sends_only_bind;
      [apply sends_only_s3Client_send; reflexivity | intros; apply sends_only_ret]. }
  specialize (H w). rewrite forallb_forall in H. apply H, Hs.
Qed.

(** X12: When the listing of access points fails, forced delete goes on as if
    there were none: it deletes no access point, sends the delete of the
    bucket, and reports plain success if that goes through. *)
Theorem deleteBucketWithAccessPoints_listing_failure_is_swallowed
  (bucketName accountId : jsstring) (w w1 w2 : World) (e : JsError)
  (r : completion unit) :
  s3ControlClient (ListAccessPointsCommand accountId bucketName) w = (Throw e, w1) ->
  s3Client (DeleteBucketCommand bucketName) w1 = (r, w2) ->
  deleteBucketWithAccessPoints bucketName accountId w =
    {| result :=
         match r with
         | Normal _ =>
             Normal {| Result.success := true;
                       Result.message := lit "Bucket deleted successfully" |}
         | Throw e' =>
             Throw (Error (lit "Failed to delete bucket with access points: " ++
                           message e'))
         end;
       final := w2;
       trace := [ failed (S3Control (ListAccessPointsCommand accountId bucketName)) e;
                  {| command := S3 (DeleteBucketCommand bucketName);
                     failure := failure_of r |} ] |}.
Proof.
  intros Hlist Hdel.
  assert (Hl : listAccessPoints bucketName accountId w =
               {| result := Normal []; final := w1;
                  trace := [ failed (S3Control (ListAccessPointsCommand accountId bucketName)) e ] |}).
  { unfold listAccessPoints. erewrite run_try_throw; cycle 1.
    { erewrite run_bind_throw by (apply run_s3ControlClient_send, Hlist). reflexivity. }
    reflexivity. }
  unfold deleteBucketWithAccessPoints. destruct r as [[]|e'].
  - erewrite run_try_normal; [reflexivity |].
    erewrite run_bind_normal by exact Hl. cbn [length Nat.ltb Nat.leb].
    erewrite run_bind_normal by reflexivity.
    erewrite run_bind_normal by (apply run_s3Client_send, Hdel). reflexivity.
  - erewrite run_try_throw; cycle 1.
    { erewrite run_bind_normal by exact Hl. cbn [length Nat.ltb Nat.leb].
      erewrite run_bind_normal by reflexivity.
      erewrite run_bind_throw by (apply run_s3Client_send, Hdel). reflexivity. }
    reflexivity.
Qed.

(** X13: Without an account identifier the forced-delete route answers 400
    before it looks at the name and before any command is sent. *)
Theorem route_DELETE_bucket_force_needs_account (name : jsstring) (w : World) :
  truthy AWS_ACCOUNT_ID = false ->
  route_DELETE_bucket_force name w =
    {| result :=
         Normal (reply 400 false
                   (lit "AWS_ACCOUNT_ID environment variable is required for access point management"));
       final := w; trace := [] |}.
Proof.
  intros H. unfold route_DELETE_bucket_force.
  destruct AWS_ACCOUNT_ID as [[|c accountId]|]; try discriminate H; reflexivity.
Qed.

(** X14: A name that fails the boundary check reaches no provider: the delete
    and get-bucket routes, and the forced-delete route once an account is
    configured, answer 400 and send nothing. *)
Theorem routes_reject_invalid_name_without_sending (name : jsstring)
  (w : World) (err : JoiError) :
  validate bucketNameSchema name = Some err ->
  route_DELETE_bucket name w =
    {| result := Normal (reply 400 false (lit "Invalid bucket name"));
       final := w; trace := [] |} /\
  (forall fuel,
     route_GET_bucket fuel name w =
       {| result := Normal (Some (reply 400 false (lit "Invalid bucket name")));
          final := w; trace := [] |}) /\
  (truthy AWS_ACCOUNT_ID = true ->
   route_DELETE_bucket_force name w =
     {| result := Normal (reply 400 false (lit "Invalid bucket name"));
        final := w; trace := [] |}).
Proof.
  intros H. split; [| split].
  - unfold route_DELETE_bucket. rewrite H. reflexivity.
  - intros fuel. unfold route_GET_bucket. rewrite H. reflexivity.
  - intros Hacc. unfold route_DELETE_bucket_force. rewrite H.
    destruct AWS_ACCOUNT_ID as [[|c accountId]|]; try discriminate Hacc; reflexivity.
Qed.

End ForcedDeleteMore.

(** On "occupied" (one item, two access points): both access points are
    deleted, then the provider refuses the delete of the bucket because
    it is not empty; the bucket is left without its access points. *)
Lemma deleteBucketWithAccessPoints_occupied :
  cleared (trace (@deleteBucketWithAccessPoints Scenario.configured
                    (lit "occupied") Scenario.account Cases.occupied)) = 2%nat /\
  map command (trace (@deleteBucketWithAccessPoints Scenario.configured
                        (lit "occupied") Scenario.account Cases.occupied)) =
    S3Control (ListAccessPointsCommand Scenario.account (lit "occupied")) ::
    map (delete_of Scenario.account)
        (Scenario.access_points "occupied" ["ap1"; "ap2"]%string) ++
    [ S3 (DeleteBucketCommand (lit "occupied")) ] /\
  result (@deleteBucketWithAccessPoints Scenario.configured
            (lit "occupied") Scenario.account Cases.occupied) =
    Throw (Error (lit "Failed to delete bucket with access points: " ++
                  message Sim.BucketNotEmpty)).
Proof.
  apply (@deleteBucketWithAccessPoints_bucket_delete_fails_after_clearing
           Scenario.configured (lit "occupied") Scenario.account Cases.occupied
           (Scenario.access_points "occupied" ["ap1"; "ap2"]%string)
           (failed (S3 (DeleteBucketCommand (lit "occupied"))) Sim.BucketNotEmpty)
           Sim.BucketNotEmpty).
  - reflexivity.
  - vm_compute. right; right; right; left. reflexivity.
  - reflexivity.
  - reflexivity.
Defined.

Example deleteBucketWithAccessPoints_occupied_state :
  final (@deleteBucketWithAccessPoints Scenario.configured
           (lit "occupied") Scenario.account Cases.occupied) =
  Cases.occupied_detached.
Proof. reflexivity. Qed.

Lemma deleteBucketWithAccessPoints_listing_failure_is_swallowed_bare :
  @deleteBucketWithAccessPoints Cases.without_access_point_permissions
    (lit "bare") Scenario.account Scenario.bare =
  @Outcome.Build_t Cases.without_access_point_permissions _
    (Normal {| Result.success := true;
               Result.message := lit "Bucket deleted successfully" |})
    Cases.nothing
    [ failed (S3Control (ListAccessPointsCommand Scenario.account (lit "bare")))
             Sim.AccessDenied;
      ok (S3 (DeleteBucketCommand (lit "bare"))) ].
Proof.
  exact (@deleteBucketWithAccessPoints_listing_failure_is_swallowed
           Cases.without_access_point_permissions
           (lit "bare") Scenario.account Scenario.bare Scenario.bare Cases.nothing
           Sim.AccessDenied (Normal tt) eq_refl eq_refl).
Defined.

Lemma route_DELETE_bucket_force_needs_account_demo2 :
  @route_DELETE_bucket_force Cases.unconfigured (lit "demo2") Scenario.demo2 =
  @Outcome.Build_t Cases.unconfigured _
    (Normal (reply 400 false
               (lit "AWS_ACCOUNT_ID environment variable is required for access point management")))
    Scenario.demo2 [].
Proof.
  exact (@route_DELETE_bucket_force_needs_account Cases.unconfigured
           (lit "demo2") Scenario.demo2 eq_refl).
Defined.

Lemma routes_reject_invalid_name_without_sending_ab :
  @route_DELETE_bucket Scenario.configured (lit "ab") Scenario.demo =
  @Outcome.Build_t Scenario.configured _
    (Normal (reply 400 false (lit "Invalid bucket name"))) Scenario.demo [].
Proof.
  exact (proj1 (@routes_reject_invalid_name_without_sending Scenario.configured
                  (lit "ab") Scenario.demo string_min eq_refl)).
Defined.

(** ** The size helper and the get-bucket route *)

Section SizeHelperMore.
Context {E : Environment}.

Lemma calculateBucketSize_loop_outcomes (fuel : nat) (bucketName : jsstring)
  (acc : number) (w : World) :
  let c := S3 (ListObjectsV2Command bucketName (Some empty) (Some 1000%nat) None) in
  (exists n v w1,
     (n <= fuel)%nat /\
     calculateBucketSize_loop fuel bucketName acc w =
       {| result := Normal v; final := w1; trace := repeat (ok c) n |}) \/
  (exists n e w1,
     (n < fuel)%nat /\
     calculateBucketSize_loop fuel bucketName acc w =
       {| result := Throw (Error (lit "Failed to list files: " ++ message e));
          final := w1; trace := repeat (ok c) n ++ [ failed c e ] |}).
Proof.
  intros c. revert acc w. induction fuel as [|fuel IH]; intros acc w.
  - left. exists 0%nat, None, w. split; [lia | reflexivity].
  - cbn [calculateBucketSize_loop].
    destruct (listFiles_run bucketName empty 1000 w)
      as [(out & w1 & _ & Hl) | (e & w1 & _ & Hl)].
    + erewrite run_bind_normal by exact Hl. cbn [nextContinuationToken files].
      destruct (truthy (NextContinuationToken out)).
      * match goal with
        | |- context [calculateBucketSize_loop fuel bucketName ?a w1] =>
            destruct (IH a w1) as [(n & v & w2 & Hn & Hr) | (n & e & w2 & Hn & Hr)];
            rewrite Hr
        end.
        -- left. exists (S n), v, w2. split; [lia | reflexivity].
        -- right. exists (S n), e, w2. split; [lia | reflexivity].
      * left. eexists 1%nat, _, w1. split; [lia | reflexivity].
    + erewrite run_bind_throw by exact Hl.
      right. exists 0%nat, e, w1. split; [lia | reflexivity].
Qed.

(** X15: When a request of the size helper fails, that request is its
    last one, every request before it was answered, and the helper returns
    0: not what it had summed so far, and not an error. *)
Theorem calculateBucketSize_failed_page_gives_zero (fuel : nat)
  (bucketName : jsstring) (w : World) (s : Sent) (e : JsError) :
  In s (trace (calculateBucketSize fuel bucketName w)) ->
  failure s = Some e ->
  result (calculateBucketSize fuel bucketName w) = Normal (Some (Finite 0)) /\
  exists n,
    (n < fuel)%nat /\
    trace (calculateBucketSize fuel bucketName w) =
      repeat (ok (S3 (ListObjectsV2Command bucketName (Some empty)
                        (Some 1000%nat) None))) n ++
      [ failed (S3 (ListObjectsV2Command bucketName (Some empty)
                      (Some 1000%nat) None)) e ].
Proof.
  intros Hin Hfail. unfold calculateBucketSize in *.
  destruct (calculateBucketSize_loop_outcomes fuel bucketName (Finite 0) w)
    as [(n & v & w1 & Hn & Hr) | (n & e0 & w1 & Hn & Hr)].
  - exfalso. erewrite run_try_normal in Hin by exact Hr.
    cbn [trace] in Hin. apply repeat_spec in Hin. subst s. discriminate Hfail.
  - erewrite run_try_throw in Hin |- * by exact Hr.
    cbn [result trace after_trace ret] in *. rewrite app_nil_r in *.
    apply in_app_or in Hin as [Hin | [<- | []]].
    + apply repeat_spec in Hin. subst s. discriminate Hfail.
    + cbn in Hfail. injection Hfail as ->.
      split; [reflexivity |]. exists n. split; [exact Hn | reflexivity].
Qed.

(** X16: A provider that answers the helper's listing with a continuation
    token and leaves its state as it was: the helper sends that listing
    as many times as it is allowed to iterate and has not returned. *)
Theorem calculateBucketSize_repeats_first_page (bucketName : jsstring)
  (w : World) (out : ListObjectsV2Output) (fuel : nat) :
  s3Client (ListObjectsV2Command bucketName (Some empty) (Some 1000%nat) None) w =
    (Normal out, w) ->
  truthy (NextContinuationToken out) = true ->
  calculateBucketSize fuel bucketName w =
    {| result := Normal None; final := w;
       trace := repeat (ok (S3 (ListObjectsV2Command bucketName (Some empty)
                                  (Some 1000%nat) None))) fuel |}.
Proof.
  intros Hlist Htok. unfold calculateBucketSize.
  erewrite run_try_normal; [reflexivity |].
  generalize (Finite 0) as acc. induction fuel as [|fuel IH]; intros acc; [reflexivity |].
  cbn [calculateBucketSize_loop].
  destruct (listFiles_run bucketName empty 1000 w)
    as [(out' & w1 & Hs & Hl) | (e & w1 & Hs & _)]; [| congruence].
  rewrite Hlist in Hs. injection Hs as <- <-.
  erewrite run_bind_normal by exact Hl. cbn [nextContinuationToken].
  rewrite Htok, IH. reflexivity.
Qed.

(** X17: The get-bucket route on a bucket that fits one page and whose
    sizes add up to less than 2^53: the object count it reports is the key
    count of a listing capped at one key, the size is the sum over the
    page of the second listing, and it has sent these two listings. *)
Theorem route_GET_bucket_stats (fuel : nat) (name : jsstring)
  (w w1 w2 : World) (out1 out2 : ListObjectsV2Output) :
  validate bucketNameSchema name = None ->
  s3Client (ListObjectsV2Command name (Some empty) (Some 1%nat) None) w =
    (Normal out1, w1) ->
  s3Client (ListObjectsV2Command name (Some empty) (Some 1000%nat) None) w1 =
    (Normal out2, w2) ->
  truthy (NextContinuationToken out2) = false ->
  fold_left (fun sum o => sum + Size o) (or_empty (Contents out2)) 0 < 2 ^ 53 ->
  route_GET_bucket (S fuel) name w =
    {| result :=
         Normal (Some
           {| Reply.status := 200; Reply.success := true;
              Reply.message := None; Reply.code := None;
              Reply.accessPoints := None;
              Reply.bucket :=
                Some {| stats_name := name;
                        objectCount := KeyCount out1;
                        totalSize :=
                          Finite (fold_left (fun sum o => sum + Size o)
                                            (or_empty (Contents out2)) 0);
                        hasObjects := positive (KeyCount out1) |} |});
       final := w2;
       trace := [ ok (S3 (ListObjectsV2Command name (Some empty) (Some 1%nat) None));
                  ok (S3 (ListObjectsV2Command name (Some empty) (Some 1000%nat) None)) ] |}.
Proof.
  intros Hok H1 H2 Htok Hsum. unfold route_GET_bucket. rewrite Hok.
  destruct (listFiles_run name empty 1 w)
    as [(o1 & v1 & Hs1 & Hl1) | (e & v1 & Hs1 & _)]; [| congruence].
  rewrite H1 in Hs1. injection Hs1 as <- <-.
  assert (Hsize : calculateBucketSize (S fuel) name w1 =
    {| result := Normal (Some (Finite (fold_left (fun sum o => sum + Size o)
                                                 (or_empty (Contents out2)) 0)));
       final := w2;
       trace := [ ok (S3 (ListObjectsV2Command name (Some empty) (Some 1000%nat) None)) ] |}).
  { unfold calculateBucketSize. cbn [calculateBucketSize_loop].
    destruct (listFiles_run name empty 1000 w1)
      as [(o2 & v2 & Hs2 & Hl2) | (e & v2 & Hs2 & _)]; [| congruence].
    rewrite H2 in Hs2. injection Hs2 as <- <-.
    erewrite run_try_normal; [reflexivity |].
    erewrite run_bind_normal by exact Hl2. cbn [nextContinuationToken files].
    rewrite Htok, fold_left_sizes by exact Hsum.
    cbn [js_add]. rewrite N.add_0_l, round_to_double_small by exact Hsum.
    reflexivity. }
  erewrite run_try_normal; [reflexivity |].
  erewrite run_bind_normal by exact Hl1.
  erewrite run_bind_normal by exact Hsize. reflexivity.
Qed.

(** X18: The get-bucket route on a bucket the provider does not know: when the
    first listing fails with a message that says so, the route answers
    404 and sends nothing more. *)
Theorem route_GET_bucket_not_found (fuel : nat) (name : jsstring)
  (w w1 : World) (e : JsError) :
  validate bucketNameSchema name = None ->
  s3Client (ListObjectsV2Command name (Some empty) (Some 1%nat) None) w =
    (Throw e, w1) ->
  says_not_found e = true ->
  route_GET_bucket fuel name w =
    {| result := Normal (Some (reply 404 false (lit "Bucket not found")));
       final := w1;
       trace := [ failed (S3 (ListObjectsV2Command name (Some empty) (Some 1%nat) None)) e ] |}.
Proof.
  intros Hok H1 Hnf. unfold route_GET_bucket. rewrite Hok.
  destruct (listFiles_run name empty 1 w)
    as [(o1 & v1 & Hs1 & _) | (e' & v1 & Hs1 & Hl1)]; [congruence |].
  rewrite H1 in Hs1. injection Hs1 as <- <-.
  erewrite run_try_throw by (erewrite run_bind_throw by exact Hl1; reflexivity).
  change (says_not_found (Error (lit "Failed to list files: " ++ message e)))
    with (says_not_found e).
  rewrite Hnf. reflexivity.
Qed.

End SizeHelperMore.

(** On a provider where "big" is gone after its first page was listed:
    the first page was summed, the second request fails, the helper
    returns 0. *)
Lemma calculateBucketSize_failed_page_gives_zero_big :
  result (@calculateBucketSize Cases.with_vanishing_buckets 2 (lit "big") Scenario.big) =
    Normal (Some (Finite 0)) /\
  exists n,
    (n < 2)%nat /\
    trace (@calculateBucketSize Cases.with_vanishing_buckets 2 (lit "big") Scenario.big) =
      repeat (ok Scenario.big_listing) n ++ [ failed Scenario.big_listing Sim.NoSuchBucket ].
Proof.
  apply (@calculateBucketSize_failed_page_gives_zero Cases.with_vanishing_buckets
           2%nat (lit "big") Scenario.big
           (failed Scenario.big_listing Sim.NoSuchBucket) Sim.NoSuchBucket).
  - vm_compute. right; left. reflexivity.
  - reflexivity.
Defined.

Lemma calculateBucketSize_repeats_first_page_big :
  @calculateBucketSize Scenario.configured 3 (lit "big") Scenario.big =
  @Outcome.Build_t Scenario.configured _ (Normal None) Scenario.big
    (repeat (ok Scenario.big_listing) 3).
Proof.
  apply (@calculateBucketSize_repeats_first_page Scenario.configured
           (lit "big") Scenario.big
           {| Contents := Some (Sim.numbered 1000);
              IsTruncated := Some true;
              NextContinuationToken := Some (toString 1000);
              KeyCount := Some 1000%nat |}
           3%nat).
  - vm_compute. reflexivity.
  - reflexivity.
Defined.

(** "small" holds seven items of one byte: the helper returns 7. *)
Lemma calculateBucketSize_one_page_small :
  result (@calculateBucketSize Scenario.configured 1 (lit "small") Cases.small) =
    Normal (Some (Finite 7)).
Proof.
  apply (@calculateBucketSize_one_page Scenario.configured 0%nat (lit "small")
           Cases.small Cases.small
           {| Contents := Some (Sim.numbered 7);
              IsTruncated := Some false;
              NextContinuationToken := None;
              KeyCount := Some 7%nat |}).
  - reflexivity.
  - reflexivity.
  - reflexivity.
Defined.

(** "small" holds seven items: the route reports an object count of 1
    and a total size of 7. *)
Lemma route_GET_bucket_stats_small :
  result (@route_GET_bucket Scenario.configured 1 (lit "small") Cases.small) =
    Normal (Some
      {| Reply.status := 200; Reply.success := true;
         Reply.message := None; Reply.code := None;
         Reply.accessPoints := None;
         Reply.bucket :=
           Some {| stats_name := lit "small";
                   objectCount := Some 1%nat;
                   totalSize := Finite 7;
                   hasObjects := true |} |}).
Proof.
  exact (f_equal (@result Scenario.configured _)
           (@route_GET_bucket_stats Scenario.configured 0%nat (lit "small")
              Cases.small Cases.small Cases.small
              {| Contents := Some (Sim.numbered 1);
                 IsTruncated := Some true;
                 NextContinuationToken := Some (toString 1);
                 KeyCount := Some 1%nat |}
              {| Contents := Some (Sim.numbered 7);
                 IsTruncated := Some false;
                 NextContinuationToken := None;
                 KeyCount := Some 7%nat |}
              eq_refl eq_refl eq_refl eq_refl eq_refl)).
Defined.

Lemma route_GET_bucket_not_found_ghost :
  @route_GET_bucket Scenario.configured 1 (lit "ghost") Cases.nothing =
  @Outcome.Build_t Scenario.configured _
    (Normal (Some (reply 404 false (lit "Bucket not found"))))
    Cases.nothing
    [ failed (S3 (ListObjectsV2Command (lit "ghost") (Some empty) (Some 1%nat) None))
             Sim.NoSuchBucket ].
Proof.
  exact (@route_GET_bucket_not_found Scenario.configured 1%nat (lit "ghost")
           Cases.nothing Cases.nothing Sim.NoSuchBucket eq_refl eq_refl eq_refl).
Defined.

(** ** Creating a bucket *)

Lemma jsstring_eqb_spec (a b : jsstring) : jsstring_eqb a b = true <-> a = b.
Proof.
  revert b. induction a as [|x a IH]; intros [|y b]; cbn; try (split; congruence).
  rewrite andb_true_iff, N.eqb_eq, IH. split; [intros [-> ->] | intros H; injection H]; auto.
Qed.

Lemma validateBucketName_passes (s : jsstring) :
  validateBucketName s = Normal tt <-> well_named s.
Proof.
  rewrite validateBucketName_normal, well_named_iff.
  split; intros H r; apply violated_false, H.
Qed.

Section CreateBucket.
Context {E : Environment}.

(** X19: createBucket sends a command only for a name that meets all the
    naming rules, and then exactly one: the creation of that bucket, with
    a location constraint unless the region is us-east-1. For any other
    name it sends nothing, leaves the state alone and throws the reason
    under the prefix of the operation. *)
Theorem createBucket_sends_only_for_well_named (bucketName region : jsstring)
  (w : World) :
  (well_named bucketName /\
   exists location answer,
     trace (createBucket bucketName region w) =
       [ {| command := S3 (CreateBucketCommand bucketName location);
            failure := answer |} ] /\
     (region = lit "us-east-1" -> location = None) /\
     (region <> lit "us-east-1" -> location = Some region)) \/
  (~ well_named bucketName /\
   exists r,
     createBucket bucketName region w =
       {| result := Throw (Error (lit "Failed to create bucket: " ++ reason r));
          final := w; trace := [] |}).
Proof.
  destruct (validateBucketName bucketName) as [[]|e] eqn:Hv.
  - left. split; [apply validateBucketName_passes, Hv |].
    exists (if negb (jsstring_eqb region (lit "us-east-1")) then Some region else None).
    assert (Htrace : exists answer,
      trace (createBucket bucketName region w) =
        [ {| command :=
               S3 (CreateBucketCommand bucketName
                     (if negb (jsstring_eqb region (lit "us-east-1"))
                      then Some region else None));
             failure := answer |} ]).
    { unfold createBucket, try_catch, bind, call, s3Client_send. rewrite Hv.
      cbn beta iota zeta delta [result final trace after_trace].
      destruct (s3Client _ w) as [[[]|e] w1]; cbn [result final trace after_trace app].
      - eexists. reflexivity.
      - destruct (jsstring_eqb (name e) _); [eexists; reflexivity |].
        destruct (jsstring_eqb (name e) _); eexists; reflexivity. }
    destruct Htrace as [answer Htrace]. exists answer.
    split; [exact Htrace |]. split.
    + intros ->. reflexivity.
    + intros Hne. destruct (jsstring_eqb region (lit "us-east-1")) eqn:Heq;
        [apply jsstring_eqb_spec in Heq; contradiction | reflexivity].
  - right. split.
    + intros Hwn. apply validateBucketName_passes in Hwn. congruence.
    + destruct (validateBucketName_throw _ _ Hv) as (r & _ & _ & ->).
      exists r. exact (createBucket_rejects _ _ _ _ Hv).
Qed.

(** X20: How createBucket reports a refusal of the provider: the two "already"
    errors, told by the name of the error, get their own messages; any
    other error is passed on under the prefix of the operation. A
    creation that goes through returns the name and the region. *)
Theorem createBucket_reports_provider_answer (bucketName region : jsstring)
  (w w1 : World) (r : completion unit) :
  validateBucketName bucketName = Normal tt ->
  s3Client (CreateBucketCommand bucketName
              (if negb (jsstring_eqb region (lit "us-east-1"))
               then Some region else None)) w = (r, w1) ->
  final (createBucket bucketName region w) = w1 /\
  match r with
  | Normal _ =>
      result (createBucket bucketName region w) =
        Normal {| bucket_name := bucketName; region := region |}
  | Throw e =>
      (name e = lit "BucketAlreadyExists" ->
       result (createBucket bucketName region w) =
         Throw (Error (lit "Bucket name already exists"))) /\
      (name e = lit "BucketAlreadyOwnedByYou" ->
       result (createBucket bucketName region w) =
         Throw (Error (lit "Bucket already owned by you"))) /\
      (name e <> lit "BucketAlreadyExists" ->
       name e <> lit "BucketAlreadyOwnedByYou" ->
       result (createBucket bucketName region w) =
         Throw (Error (lit "Failed to create bucket: " ++ message e)))
  end.
Proof.
  intros Hv Hs.
  unfold createBucket, try_catch, bind, call, s3Client_send. rewrite Hv.
  cbn beta iota zeta delta [result final trace after_trace]. rewrite Hs.
  destruct r as [[]|e]; cbn [result final trace after_trace].
  - split; reflexivity.
  - destruct (jsstring_eqb (name e) (lit "BucketAlreadyExists")) eqn:H1;
      [| destruct (jsstring_eqb (name e) (lit "BucketAlreadyOwnedByYou")) eqn:H2];
      cbn [result final throw]; (split; [reflexivity |]).
    + apply jsstring_eqb_spec in H1. split; [reflexivity |].
      split; [intros H; rewrite H in H1; discriminate H1 | intros H; contradiction].
    + apply jsstring_eqb_spec in H2.
      split; [intros H; rewrite H in H1; discriminate H1 |].
      split; [reflexivity | intros _ H; contradiction].
    + split; [intros H; rewrite H in H1; discriminate H1 |].
      split; [intros H; rewrite H in H2; discriminate H2 | reflexivity].
Qed.

End CreateBucket.

(** Creating "demo" where it already exists. *)
Lemma createBucket_reports_provider_answer_demo :
  result (@createBucket Scenario.configured (lit "demo") (lit "eu-west-1") Scenario.demo) =
    Throw (Error (lit "Bucket already owned by you")).
Proof.
  exact (proj1 (proj2 (proj2
           (@createBucket_reports_provider_answer Scenario.configured
              (lit "demo") (lit "eu-west-1") Scenario.demo Scenario.demo
              (Throw Sim.BucketAlreadyOwnedByYou) eq_refl eq_refl)))
           eq_refl).
Defined.

(** ** Keys, their decoding and the delete-item route *)

Lemma fileKeySchema_spec (key : jsstring) :
  validate fileKeySchema key = None <->
  (1 <= length key <= 1024)%nat /\
  forall c, In c key ->
    c <> 60 /\ c <> 62 /\ c <> 58 /\ c <> 34 /\ c <> 124 /\ c <> 63 /\ c <> 42.
Proof.
  assert (Hchar : forall c, negb (forbidden_key_char c) = true <->
    c <> 60 /\ c <> 62 /\ c <> 58 /\ c <> 34 /\ c <> 124 /\ c <> 63 /\ c <> 42).
  { intros c. unfold forbidden_key_char.
    rewrite negb_true_iff, !orb_false_iff, !N.eqb_neq. tauto. }
  unfold validate. destruct key as [|a key].
  - split; [discriminate | cbn; lia].
  - cbn [min max pattern fileKeySchema key_regex_test].
    destruct (length (a :: key) <? 1)%nat eqn:Hmin.
    { apply Nat.ltb_lt in Hmin. cbn in Hmin. lia. }
    destruct (1024 <? length (a :: key))%nat eqn:Hmax.
    { apply Nat.ltb_lt in Hmax. split; [discriminate | lia]. }
    apply Nat.ltb_ge in Hmax.
    destruct (forallb (fun c => negb (forbidden_key_char c)) (a :: key)) eqn:Hre;
      cbn [negb].
    + rewrite forallb_forall in Hre. split; [| reflexivity].
      intros _. split; [cbn [length] in *; lia |].
      intros c Hc. apply Hchar, Hre, Hc.
    + split; [discriminate |]. intros [_ Hcls].
      assert (forallb (fun c => negb (forbidden_key_char c)) (a :: key) = true) as Hok
        by (apply forallb_forall; intros c Hc; apply Hchar, Hcls, Hc).
      congruence.
Qed.

(** X23: The key schema accepts exactly the strings of 1 to 1024 code units
    that hold none of the seven excluded characters; so a key with
    slashes passes and a key with a vertical bar does not. *)
Theorem fileKeySchema_accepts_iff (key : jsstring) :
  (validate fileKeySchema key = None <->
   (1 <= length key <= 1024)%nat /\
   forall c, In c key ->
     c <> 60 /\ c <> 62 /\ c <> 58 /\ c <> 34 /\ c <> 124 /\ c <> 63 /\ c <> 42) /\
  validate fileKeySchema (lit "a/b/c.txt") = None /\
  validate fileKeySchema (lit "bad|key") = Some string_pattern_base.
Proof.
  split; [apply fileKeySchema_spec | split; reflexivity].
Qed.

(** Decoding fails in one way only. *)
Lemma Decode_throws_URIError (fuel : nat) (s : jsstring) (e : JsError) :
  Decode fuel s = Throw e -> e = URIError.
Proof.
  revert s. induction fuel as [|fuel IH]; intros s; destruct s as [|c rest]; cbn [Decode];
    try discriminate.
  assert (Hcont : forall u r, match Decode fuel r with
                              | Normal r' => Normal (u ++ r')
                              | Throw e' => Throw e'
                              end = Throw e -> e = URIError).
  { intros u r. destruct (Decode fuel r) as [r'|e'] eqn:Hd; [discriminate |].
    intros H. injection H as <-. exact (IH _ Hd). }
  destruct (c =? 37); [| apply Hcont].
  destruct (percent_octet (c :: rest)) as [[b rest1]|]; [| congruence].
  destruct (b <? 128); [apply Hcont |].
  destruct (utf8_sequence b rest1) as [[v rest2]|]; [apply Hcont | congruence].
Qed.

(** A string without percent sign decodes to itself. *)
Lemma Decode_without_percent (fuel : nat) (s : jsstring) :
  (length s <= fuel)%nat -> (forall c, In c s -> c <> 37) ->
  Decode fuel s = Normal s.
Proof.
  revert s. induction fuel as [|fuel IH]; intros s Hlen Hs; destruct s as [|c rest];
    cbn [Decode]; try reflexivity.
  assert (Hc : (c =? 37) = false) by (apply N.eqb_neq, Hs; left; reflexivity).
  rewrite Hc, IH; [reflexivity | cbn in Hlen; lia |].
  intros c' Hc'. apply Hs. right. exact Hc'.
Qed.

Section DeleteItem.
Context {E : Environment}.

(** X24: A key with a malformed escape: the delete-item route answers 500
    with the message of the URIError, whatever the bucket and the key look
    like otherwise, and sends nothing. *)
Theorem route_DELETE_file_malformed_escape (bucket key : jsstring) (w : World)
  (e : JsError) :
  decodeURIComponent key = Throw e ->
  route_DELETE_file bucket key w =
    {| result := Normal (reply 500 false (lit "URI malformed"));
       final := w; trace := [] |}.
Proof.
  intros Hd. pose proof (Decode_throws_URIError _ _ _ Hd) as ->.
  unfold route_DELETE_file, try_catch, bind, call. rewrite Hd. reflexivity.
Qed.

(** X25: A bucket or a key that fails the key schema: the route answers 400
    and sends nothing. *)
Theorem route_DELETE_file_invalid (bucket key decodedKey : jsstring) (w : World) :
  decodeURIComponent key = Normal decodedKey ->
  validate fileKeySchema bucket <> None \/ validate fileKeySchema key <> None ->
  route_DELETE_file bucket key w =
    {| result := Normal (reply 400 false (lit "Invalid bucket name or file key"));
       final := w; trace := [] |}.
Proof.
  intros Hd Hbad.
  unfold route_DELETE_file, try_catch, bind, call. rewrite Hd.
  cbn beta iota zeta delta [result final trace after_trace].
  destruct (validate fileKeySchema bucket), (validate fileKeySchema key);
    try reflexivity.
  destruct Hbad as [H | H]; contradiction H; reflexivity.
Qed.

(** X26: A valid key without percent sign is deleted as it is: the one command
    sent deletes that very key. *)
Theorem route_DELETE_file_plain_key (bucket key : jsstring) (w : World) :
  validate fileKeySchema bucket = None ->
  validate fileKeySchema key = None ->
  (forall c, In c key -> c <> 37) ->
  exists answer,
    trace (route_DELETE_file bucket key w) =
      [ {| command := S3 (DeleteObjectCommand bucket key); failure := answer |} ].
Proof.
  intros Hb Hk Hplain.
  assert (Hd : decodeURIComponent key = Normal key)
    by (apply Decode_without_percent; [lia | exact Hplain]).
  unfold route_DELETE_file. rewrite Hb, Hk, Hd.
  unfold try_catch, bind, call, deleteFile, try_catch, bind, s3Client_send.
  cbn beta iota zeta delta [result final trace after_trace].
  destruct (s3Client (DeleteObjectCommand bucket key) w) as [[[]|e] w1];
    cbn; [| destruct (says_not_found _)]; eexists; reflexivity.
Qed.

(** X27: What the route answers once the delete is sent: 200 with the success
    message when the provider accepts it; 404 when the provider's error
    says that something was not found or does not exist; otherwise 500
    with the provider's message under the prefix of the operation. *)
Theorem route_DELETE_file_replies (bucket key decodedKey : jsstring)
  (w w1 : World) (r : completion unit) :
  validate fileKeySchema bucket = None ->
  validate fileKeySchema key = None ->
  decodeURIComponent key = Normal decodedKey ->
  s3Client (DeleteObjectCommand bucket decodedKey) w = (r, w1) ->
  final (route_DELETE_file bucket key w) = w1 /\
  result (route_DELETE_file bucket key w) =
    Normal match r with
           | Normal _ => reply 200 true (lit "File deleted successfully")
           | Throw e =>
               if says_not_found e
               then reply 404 false (lit "File not found")
               else reply 500 false (lit "Failed to delete file: " ++ message e)
           end.
Proof.
  intros Hb Hk Hd Hs.
  unfold route_DELETE_file. rewrite Hb, Hk, Hd.
  unfold try_catch, bind, call, deleteFile, try_catch, bind, s3Client_send.
  cbn beta iota zeta delta [result final trace after_trace]. rewrite Hs.
  destruct r as [[]|e]; cbn [result final trace after_trace throw ret].
  - split; reflexivity.
  - change (says_not_found (Error (lit "Failed to delete file: " ++ message e)))
      with (says_not_found e).
    destruct (says_not_found e); split; reflexivity.
Qed.

End DeleteItem.

Lemma route_DELETE_file_malformed_escape_percent :
  @route_DELETE_file Scenario.configured (lit "demo") (lit "100%") Scenario.demo =
  @Outcome.Build_t Scenario.configured _
    (Normal (reply 500 false (lit "URI malformed"))) Scenario.demo [].
Proof.
  exact (@route_DELETE_file_malformed_escape Scenario.configured
           (lit "demo") (lit "100%") Scenario.demo URIError eq_refl).
Defined.

Lemma route_DELETE_file_invalid_bar :
  @route_DELETE_file Scenario.configured (lit "demo") (lit "bad|key") Scenario.demo =
  @Outcome.Build_t Scenario.configured _
    (Normal (reply 400 false (lit "Invalid bucket name or file key"))) Scenario.demo [].
Proof.
  apply (@route_DELETE_file_invalid Scenario.configured
           (lit "demo") (lit "bad|key") (lit "bad|key") Scenario.demo).
  - reflexivity.
  - right. discriminate.
Defined.

Lemma route_DELETE_file_plain_key_a_txt :
  exists answer,
    trace (@route_DELETE_file Scenario.configured (lit "demo") (lit "a.txt") Scenario.demo) =
      [ {| command := S3 (DeleteObjectCommand (lit "demo") (lit "a.txt"));
           failure := answer |} ].
Proof.
  apply (@route_DELETE_file_plain_key Scenario.configured
           (lit "demo") (lit "a.txt") Scenario.demo).
  - reflexivity.
  - reflexivity.
  - intros c Hc. vm_compute in Hc.
    repeat (destruct Hc as [<- | Hc]; [discriminate |]). destruct Hc.
Defined.

Lemma route_DELETE_file_replies_ghost :
  result (@route_DELETE_file Scenario.configured (lit "ghost") (lit "a.txt") Cases.nothing) =
    Normal (reply 404 false (lit "File not found")).
Proof.
  exact (proj2 (@route_DELETE_file_replies Scenario.configured
                  (lit "ghost") (lit "a.txt") (lit "a.txt")
                  Cases.nothing Cases.nothing (Throw Sim.NoSuchBucket)
                  eq_refl eq_refl eq_refl eq_refl)).
Defined.

(** ** The content-type check *)

Lemma slice_0_minus2_stem (stem : jsstring) :
  slice_0_minus2 (stem ++ lit "/*") = stem.
Proof.
  unfold slice_0_minus2. rewrite length_app.
  replace (length stem + length (lit "/*") - 2)%nat with (length stem + 0)%nat
    by (cbn; lia).
  rewrite firstn_app_2, app_nil_r. reflexivity.
Qed.

Lemma array_includes_spec (l : list jsstring) (x : jsstring) :
  array_includes l x = true <-> In x l.
Proof.
  unfold array_includes. rewrite existsb_exists. split.
  - intros (y & Hy & Heq). apply jsstring_eqb_spec in Heq. subst. exact Hy.
  - intros H. exists x. split; [exact H | apply jsstring_eqb_spec; reflexivity].
Qed.

Lemma type_matches_spec (allowedType contentType : jsstring) :
  (if endsWith allowedType (lit "/*")
   then startsWith contentType (slice_0_minus2 allowedType)
   else jsstring_eqb contentType allowedType) = true <->
  type_matches allowedType contentType.
Proof.
  unfold type_matches. destruct (endsWith allowedType (lit "/*")) eqn:He.
  - apply endsWith_spec in He as [stem ->].
    rewrite slice_0_minus2_stem, startsWith_spec. split.
    + intros Hrest. left. exists stem. split; [reflexivity | exact Hrest].
    + intros [(stem' & Heq & Hrest) | [Hno _]].
      * assert (stem = stem') as ->.
        { change (lit "/*") with ([47] ++ [42]) in Heq.
          rewrite !app_assoc in Heq.
          apply app_inj_tail in Heq as [Heq _].
          apply app_inj_tail in Heq as [Heq _]. exact Heq. }
        exact Hrest.
      * exfalso. apply Hno. exists stem. reflexivity.
  - rewrite jsstring_eqb_spec. split.
    + intros ->. right. split; [| reflexivity].
      intros Hex. apply endsWith_spec in Hex. congruence.
    + intros [(stem & -> & _) | [_ H]]; [| exact H].
      assert (endsWith (stem ++ lit "/*") (lit "/*") = true)
        by (apply endsWith_spec; exists stem; reflexivity).
      congruence.
Qed.

(** X29: The content-type check lets a type through exactly when the list of
    allowed types holds the wildcard for everything or an entry that
    matches it; an entry such as image/star matches every type that
    starts with "image", with or without a slash after it. A type that is
    not let through is reported by name. *)
Theorem validateFileType_accepts_iff (allowedFileTypes : list jsstring)
  (contentType : jsstring) :
  (validateFileType allowedFileTypes contentType = Normal tt <->
   In (lit "*/*") allowedFileTypes \/
   exists allowedType, In allowedType allowedFileTypes /\
                       type_matches allowedType contentType) /\
  (validateFileType allowedFileTypes contentType <> Normal tt ->
   validateFileType allowedFileTypes contentType =
     Throw (Error (lit "File type " ++ contentType ++ lit " is not allowed"))).
Proof.
  unfold validateFileType.
  destruct (array_includes allowedFileTypes (lit "*/*")) eqn:Hall; cbn [negb].
  - apply array_includes_spec in Hall. split; [tauto | congruence].
  - match goal with
    | |- context [existsb ?f allowedFileTypes] =>
        destruct (existsb f allowedFileTypes) eqn:Hsome
    end; cbn [negb].
    + split; [| congruence]. split; [| reflexivity]. intros _. right.
      apply existsb_exists in Hsome as (t & Ht & Hm).
      exists t. split; [exact Ht | apply type_matches_spec, Hm].
    + split; [| reflexivity]. split; [discriminate |].
      intros [Hin | (t & Ht & Hm)].
      * apply array_includes_spec in Hin. congruence.
      * assert (existsb
                  (fun allowedType =>
                     if endsWith allowedType (lit "/*")
                     then startsWith contentType (slice_0_minus2 allowedType)
                     else jsstring_eqb contentType allowedType)
                  allowedFileTypes = true) as Hyes
          by (apply existsb_exists; exists t; split;
              [exact Ht | apply type_matches_spec, Hm]).
        congruence.
Qed.

(** With the default list: a type that merely starts with "image" passes,
    a JSON document does not. *)
Example validateFileType_defaults :
  validateFileType default_allowedFileTypes (lit "imagery") = Normal tt /\
  validateFileType default_allowedFileTypes (lit "application/pdf") = Normal tt /\
  validateFileType default_allowedFileTypes (lit "application/json") =
    Throw (Error (lit "File type application/json is not allowed")).
Proof. split; [| split]; vm_compute; reflexivity. Qed.

(** ** The boundary of the file routes and the create-bucket route *)

Section FileRouteBucket.
Context {E : Environment}.

(** X28: The delete-item route checks the bucket with the key schema: for
    a key that passes and decodes, the route sends a command exactly when
    the bucket passes the key schema. That schema lets through every name
    the bucket schema lets through, and more: a name with capitals and a
    space passes it, the bucket schema refuses it. *)
Theorem route_DELETE_file_checks_bucket_with_key_schema :
  (forall bucket key decodedKey w,
     validate fileKeySchema key = None ->
     decodeURIComponent key = Normal decodedKey ->
     (validate fileKeySchema bucket = None <->
      trace (route_DELETE_file bucket key w) <> [])) /\
  (forall name, validate bucketNameSchema name = None ->
                validate fileKeySchema name = None) /\
  validate fileKeySchema (lit "My Bucket") = None /\
  validate bucketNameSchema (lit "My Bucket") = Some string_pattern_base.
Proof.
  split; [| split; [| split; reflexivity]].
  - intros bucket key decodedKey w Hk Hd.
    unfold route_DELETE_file, try_catch, bind, call. rewrite Hd, Hk.
    cbn beta iota zeta delta [result final trace after_trace].
    destruct (validate fileKeySchema bucket) as [err|].
    + cbn. split; [discriminate | intros H; contradiction H; reflexivity].
    + split; [intros _ | reflexivity].
      unfold deleteFile, try_catch, bind, s3Client_send.
      cbn beta iota zeta delta [result final trace after_trace].
      destruct (s3Client (DeleteObjectCommand bucket decodedKey) w) as [[[]|e] w1];
        cbn; [| destruct (says_not_found _)]; discriminate.
  - intros name H. apply bucketNameSchema_spec in H as [Hlen Hcls].
    apply fileKeySchema_spec. split; [lia |].
    intros c Hc. specialize (Hcls c Hc). unfold in_class in Hcls. lia.
Qed.

End FileRouteBucket.

Section CreateRouteProperties.
Context {E : Environment}.

(** X21: A name that breaks a naming rule of the service makes the
    create-bucket route answer 500, not 400, with the reason under the
    prefix of the operation, also when the name passed the request
    schema; nothing is sent. *)
Theorem route_POST_bucket_rejected_name (bucketName region : jsstring) (w : World)
  (e : JsError) :
  validateBucketName bucketName = Throw e ->
  route_POST_bucket bucketName region w =
    {| result :=
         Normal {| CreateReply.status := 500; CreateReply.success := false;
                   CreateReply.message := lit "Failed to create bucket: " ++ message e;
                   CreateReply.bucket := None |};
       final := w; trace := [] |}.
Proof.
  intros Hv. destruct (validateBucketName_throw _ _ Hv) as (r & _ & _ & ->).
  unfold route_POST_bucket.
  erewrite run_try_throw; cycle 1.
  { erewrite run_bind_throw by exact (createBucket_rejects _ _ _ _ Hv). reflexivity. }
  destruct r; reflexivity.
Qed.

(** X22: A name already taken: for both "already" errors of the provider the
    route answers 409 with the message the service made of it. *)
Theorem route_POST_bucket_conflict (bucketName region : jsstring) (w w1 : World)
  (e : JsError) :
  validateBucketName bucketName = Normal tt ->
  s3Client (CreateBucketCommand bucketName
              (if negb (jsstring_eqb region (lit "us-east-1"))
               then Some region else None)) w = (Throw e, w1) ->
  (name e = lit "BucketAlreadyExists" ->
   result (route_POST_bucket bucketName region w) =
     Normal {| CreateReply.status := 409; CreateReply.success := false;
               CreateReply.message := lit "Bucket name already exists";
               CreateReply.bucket := None |}) /\
  (name e = lit "BucketAlreadyOwnedByYou" ->
   result (route_POST_bucket bucketName region w) =
     Normal {| CreateReply.status := 409; CreateReply.success := false;
               CreateReply.message := lit "Bucket already owned by you";
               CreateReply.bucket := None |}).
Proof.
  intros Hv Hs.
  unfold route_POST_bucket, createBucket, try_catch, bind, call, s3Client_send.
  rewrite Hv. cbn beta iota zeta delta [result final trace after_trace]. rewrite Hs.
  cbn [result final trace after_trace].
  split; intros Hn; rewrite Hn; reflexivity.
Qed.

End CreateRouteProperties.

(** "my..bucket" passes the request schema and is answered with 500. *)
Lemma route_POST_bucket_rejected_name_my_bucket :
  validate bucketNameSchema (lit "my..bucket") = None /\
  @route_POST_bucket Scenario.configured (lit "my..bucket") (lit "us-east-1")
    Scenario.demo =
  @Outcome.Build_t Scenario.configured _
    (Normal {| CreateReply.status := 500; CreateReply.success := false;
               CreateReply.message :=
                 lit "Failed to create bucket: Bucket name cannot contain consecutive dots";
               CreateReply.bucket := None |})
    Scenario.demo [].
Proof.
  split; [reflexivity |].
  exact (@route_POST_bucket_rejected_name Scenario.configured
           (lit "my..bucket") (lit "us-east-1") Scenario.demo
           (Error msg_double_dot) eq_refl).
Defined.

(** Creating "demo" where it already exists is answered with 409. *)
Lemma route_POST_bucket_conflict_demo :
  result (@route_POST_bucket Scenario.configured (lit "demo") (lit "us-east-1")
            Scenario.demo) =
    Normal {| CreateReply.status := 409; CreateReply.success := false;
              CreateReply.message := lit "Bucket already owned by you";
              CreateReply.bucket := None |}.
Proof.
  exact (proj2 (@route_POST_bucket_conflict Scenario.configured
                  (lit "demo") (lit "us-east-1") Scenario.demo Scenario.demo
                  Sim.BucketAlreadyOwnedByYou eq_refl eq_refl)
               eq_refl).
Defined.
